(** * The LogLineOS REST client example ([examples/integracao_python.py])

    The script builds one event (a Python dict), sends it with
    [requests.post] to [/append], then issues [requests.get] on [/scan] and
    on [/query?trace_id=py-demo-123e], printing [resp.json()] after each
    call.  The development embeds

    - Python values that [json=] can carry and [resp.json()] can return
      ([json]), with the text codec that [requests] applies to them
      (Python's [json] module: what [json.dumps] writes and when it raises,
      what [json.loads] reads and what it raises);
    - the limits of the interpreter that the codec and [print] run into
      ([interpreter]): the digits of an integer and the depth of the
      recursion;
    - the script's module globals and its three calls, as computations over
      an explicit world (globals, calls handed to [requests], standard
      output) that can raise;
    - the properties of those computations. *)

From Stdlib Require Import String Ascii.
From stdpp Require Import base numbers list gmap.

Local Open Scope N_scope.

(** ** Python [str]

    A [str] is a sequence of code points; every text of the script (URLs,
    header values, JSON keys and strings, bodies) is a [list N]. *)

(** A literal of the script. *)
Fixpoint lit (s : string) : list N :=
  match s with
  | EmptyString => []
  | String a s' => N_of_ascii a :: lit s'
  end.
Arguments lit : simpl never.

(** A JSON text written with ['] where the text has the double quote
    (code point 34). *)
Definition jlit (s : string) : list N :=
  map (fun c => if c =? 39 then 34 else c) (lit s).

(** A code point that a well-formed [str] may hold: below [0x110000] and not
    a surrogate. *)
Definition scalar_value (c : N) : Prop :=
  c < 0x110000 ∧ ¬ (0xd800 ≤ c ≤ 0xdfff).

(** ** JSON values

    [JFloat] keeps a float as a literal that denotes it: the one that
    [json.dumps] writes for a float of the script ([float.__repr__] for a
    finite float, which reads back as the same float; [NaN], [Infinity] and
    [-Infinity] for the others), and the one that [json.loads] read it from
    for a float of a response.  Floating-point arithmetic is outside the
    model, and two literals of one float are two values here: values that
    are equal here are equal in Python.  A dict is an association list in
    insertion order (Python dicts are ordered and [dumps] writes the keys in
    that order). *)
#[local] Unset Elimination Schemes.
Inductive json : Type :=
  | JNull
  | JBool (b : bool)
  | JInt (n : Z)
  | JFloat (l : list N)
  | JStr (s : list N)
  | JArr (l : list json)
  | JObj (m : list (list N * json)).
#[local] Set Elimination Schemes.

(** ** Exceptions

    How the transport can fail to complete a call. *)
Inductive failure : Type := ConnectionRefused | NetworkFailure | TimedOut.

(** The exceptions of the specification's taxonomy, and those of Python that
    the script can end with.  [TransportError] stands for
    [requests.exceptions.ConnectionError] and [Timeout], [DecodeError] for
    [requests.exceptions.JSONDecodeError], [InvalidJSONError] for
    [requests.exceptions.InvalidJSONError]; [ValueError], [RecursionError]
    and [UnicodeEncodeError] are Python's own. *)
Inductive error : Type :=
  | TransportError (f : failure)
  | AuthError
  | DecodeError
  | InvalidJSONError
  | ValueError
  | RecursionError
  | UnicodeEncodeError.

Inductive outcome (A : Type) : Type :=
  | Ok (a : A)
  | Raise (e : error).
Arguments Ok {A} a.
Arguments Raise {A} e.

#[export] Instance outcome_ret : MRet outcome := λ A a, Ok a.

#[export] Instance outcome_bind : MBind outcome := λ A B k m,
  match m with
  | Ok a => k a
  | Raise e => Raise e
  end.

(** A scanner of the decoder that finds nothing raises [JSONDecodeError]. *)
Definition of_option {A} (o : option A) : outcome A :=
  match o with
  | Some a => Ok a
  | None => Raise DecodeError
  end.

(** The first exception that [f] gives on the members of [l], in their
    order. *)
Definition first_error {A} (f : A → option error) (l : list A) : option error :=
  foldr (λ x rest, match f x with Some e => Some e | None => rest end) None l.

(** ** The interpreter

    What the script does not set and its behaviour depends on:
    [sys.get_int_max_str_digits()], the most digits that [int(str)] and
    [str(int)] take ([4300] by default, [0] for no limit), and the nesting
    that the recursion limit leaves to [json.dumps], to [json.loads] and to
    [repr] where the script calls them (each list or dict entered is one
    level of the recursion). *)
Record interpreter : Type := Interpreter {
  int_max_str_digits : nat;
  encoder_depth : nat;
  decoder_depth : nat;
  repr_depth : nat;
}.

(** [digits > max_str_digits], when there is a limit. *)
Definition exceeds_int_limit (py : interpreter) (digits : nat) : bool :=
  (0 <? int_max_str_digits py)%nat && (int_max_str_digits py <? digits)%nat.

(** ** [json.dumps(js, allow_nan=False)], which [requests] applies to the
    [json=] argument

    [dumps] is the text that is written (default settings: [ensure_ascii],
    separators [", "] and [": "]), [encode_error] the exception that is
    raised instead, if any. *)

Definition hex_digit (d : N) : N := if d <? 10 then 48 + d else 87 + d.

(** ['{0:04x}'.format(n)] *)
Definition hex4 (n : N) : list N :=
  [hex_digit ((n / 4096) `mod` 16); hex_digit ((n / 256) `mod` 16);
   hex_digit ((n / 16) `mod` 16); hex_digit (n `mod` 16)].

(** The replacement of one character by [py_encode_basestring_ascii]:
    [ESCAPE_DCT] for the quote, the backslash and the control characters,
    the character itself in [' '..'~'], a [\uXXXX] escape otherwise (a
    surrogate pair above the basic plane). *)
Definition escape_char (c : N) : list N :=
  if c =? 34 then [92; 34]
  else if c =? 92 then [92; 92]
  else if c =? 10 then lit "\n"
  else if c =? 13 then lit "\r"
  else if c =? 9 then lit "\t"
  else if c =? 8 then lit "\b"
  else if c =? 12 then lit "\f"
  else if (32 <=? c) && (c <=? 126) then [c]
  else if c <? 0x10000 then lit "\u" ++ hex4 c
  else
    let n := c - 0x10000 in
    let s1 := N.lor 0xd800 (N.land (N.shiftr n 10) 0x3ff) in
    let s2 := N.lor 0xdc00 (N.land n 0x3ff) in
    lit "\u" ++ hex4 s1 ++ lit "\u" ++ hex4 s2.

Definition encode_basestring_ascii (s : list N) : list N :=
  34 :: flat_map escape_char s ++ [34].

(** [int.__repr__]: the decimal digits, most significant first. *)
Fixpoint digits (fuel : nat) (n : N) (acc : list N) : list N :=
  match fuel with
  | O => acc
  | S fuel =>
      let acc := (48 + n `mod` 10) :: acc in
      if n <? 10 then acc else digits fuel (n / 10) acc
  end.

Definition repr_nat (n : N) : list N := digits (S (N.to_nat (N.log2 n))) n [].

Definition repr_int (z : Z) : list N :=
  match z with
  | Zneg p => 45 :: repr_nat (Npos p)
  | _ => repr_nat (Z.to_N z)
  end.

(** [sep.join(parts)] *)
Fixpoint join (sep : list N) (parts : list (list N)) : list N :=
  match parts with
  | [] => []
  | [p] => p
  | p :: ps => p ++ sep ++ join sep ps
  end.

Fixpoint dumps (v : json) : list N :=
  match v with
  | JNull => lit "null"
  | JBool true => lit "true"
  | JBool false => lit "false"
  | JInt n => repr_int n
  | JFloat l => l
  | JStr s => encode_basestring_ascii s
  | JArr l => lit "[" ++ join (lit ", ") (map dumps l) ++ lit "]"
  | JObj m =>
      lit "{"
      ++ join (lit ", ")
           (map (fun kv => encode_basestring_ascii kv.1 ++ lit ": " ++ dumps kv.2) m)
      ++ lit "}"
  end.

(** The number of digits of an integer, which [str(int)] compares with the
    limit. *)
Definition int_digits (z : Z) : nat := length (repr_nat (Z.abs_N z)).

(** The floats that are not finite. *)
Definition nonfinite (l : list N) : bool :=
  bool_decide (l = lit "NaN") || bool_decide (l = lit "Infinity")
  || bool_decide (l = lit "-Infinity").

(** The exception that stops the encoder, the first one in the order in
    which it visits the value: a [ValueError] for a float that is not finite
    ([allow_nan=False]) or an integer of too many digits, which [requests]
    raises again as [InvalidJSONError], and the [RecursionError] of a list or
    dict that is nested deeper than [depth], which [requests] does not
    catch. *)
Fixpoint encode_error (py : interpreter) (depth : nat) (v : json) {struct depth} :
    option error :=
  match v with
  | JInt z => if exceeds_int_limit py (int_digits z) then Some InvalidJSONError else None
  | JFloat l => if nonfinite l then Some InvalidJSONError else None
  | JArr l =>
      match depth with
      | O => Some RecursionError
      | S depth => first_error (encode_error py depth) l
      end
  | JObj m =>
      match depth with
      | O => Some RecursionError
      | S depth => first_error (λ kv, encode_error py depth kv.2) m
      end
  | _ => None
  end.

(** ** [json.loads], which [resp.json()] applies to the response text

    Each scanner takes the text that is left and returns what it read with
    the text after it; [None] stands for [JSONDecodeError], which is what
    [of_option] makes of it. *)

Definition is_ws (c : N) : bool := (c =? 32) || (c =? 9) || (c =? 10) || (c =? 13).
Definition is_digit (c : N) : bool := (48 <=? c) && (c <=? 57).

Fixpoint skip_ws (s : list N) : list N :=
  match s with
  | c :: s' => if is_ws c then skip_ws s' else s
  | [] => []
  end.

(** The longest run of digits at the head of the text. *)
Fixpoint span_digits (s : list N) : list N * list N :=
  match s with
  | c :: s' =>
      if is_digit c then let '(ds, r) := span_digits s' in (c :: ds, r) else ([], s)
  | [] => ([], [])
  end.

(** [s[idx:idx+len(p)] == p], with the text after [p]. *)
Fixpoint strip_prefix (p s : list N) : option (list N) :=
  match p, s with
  | [], _ => Some s
  | a :: p', b :: s' => if a =? b then strip_prefix p' s' else None
  | _ :: _, [] => None
  end.

(** One hexadecimal digit, in either case. *)
Definition hex_value (c : N) : option N :=
  if is_digit c then Some (c - 48)
  else if (97 <=? c) && (c <=? 102) then Some (c - 87)
  else if (65 <=? c) && (c <=? 70) then Some (c - 55)
  else None.

(** [_decode_uXXXX] on the four characters after [\u]. *)
Definition decode_uXXXX (h1 h2 h3 h4 : N) : option N :=
  d1 ← hex_value h1; d2 ← hex_value h2; d3 ← hex_value h3; d4 ← hex_value h4;
  Some (((d1 * 16 + d2) * 16 + d3) * 16 + d4).

(** The [BACKSLASH] table. *)
Definition unescape (e : N) : option N :=
  if e =? 34 then Some 34
  else if e =? 92 then Some 92
  else if e =? 47 then Some 47
  else if e =? 98 then Some 8
  else if e =? 102 then Some 12
  else if e =? 110 then Some 10
  else if e =? 114 then Some 13
  else if e =? 116 then Some 9
  else None.

(** [scanstring] (strict), from the character after the opening quote. *)
Fixpoint scanstring (s : list N) : option (list N * list N) :=
  match s with
  | [] => None
  | c :: s1 =>
      if c =? 34 then Some ([], s1)
      else if c =? 92 then
        match s1 with
        | [] => None
        | e :: s2 =>
            if e =? 117 then
              match s2 with
              | h1 :: h2 :: h3 :: h4 :: s3 =>
                  uni ← decode_uXXXX h1 h2 h3 h4;
                  let single := '(str, r) ← scanstring s3; Some (uni :: str, r) in
                  if (0xd800 <=? uni) && (uni <=? 0xdbff) then
                    match s3 with
                    | b :: u :: s4 =>
                        if (b =? 92) && (u =? 117) then
                          match s4 with
                          | g1 :: g2 :: g3 :: g4 :: s5 =>
                              uni2 ← decode_uXXXX g1 g2 g3 g4;
                              if (0xdc00 <=? uni2) && (uni2 <=? 0xdfff) then
                                let c2 :=
                                  0x10000
                                  + N.lor (N.shiftl (uni - 0xd800) 10) (uni2 - 0xdc00) in
                                '(str, r) ← scanstring s5; Some (c2 :: str, r)
                              else single
                          | _ => None
                          end
                        else single
                    | _ => single
                    end
                  else single
              | _ => None
              end
            else
              c' ← unescape e;
              '(str, r) ← scanstring s2; Some (c' :: str, r)
        end
      else if c <? 32 then None
      else '(str, r) ← scanstring s1; Some (c :: str, r)
  end.

(** [int(digits)]: one more digit, and all of them. *)
Definition digit_step (acc d : N) : N := acc * 10 + (d - 48).

Definition int_of_digits (ds : list N) : N := fold_left digit_step ds 0.

(** The parts of a match of [NUMBER_RE] at the head of the text, each with
    the text after it: the sign, the integer part, the fraction and the
    exponent. *)
Definition number_sign (s : list N) : list N * list N :=
  match s with
  | c :: s' => if c =? 45 then ([45], s') else ([], s)
  | [] => ([], s)
  end.

Definition number_int (s : list N) : option (list N * list N) :=
  match s with
  | [] => None
  | d :: s2 =>
      if d =? 48 then Some ([d], s2)
      else if is_digit d then let '(ds, r) := span_digits s2 in Some (d :: ds, r)
      else None
  end.

Definition number_frac (s : list N) : list N * list N :=
  match s with
  | p :: f :: r =>
      if (p =? 46) && is_digit f
      then let '(fs, r') := span_digits r in (p :: f :: fs, r')
      else ([], s)
  | _ => ([], s)
  end.

Definition number_exp (s : list N) : list N * list N :=
  match s with
  | e :: r =>
      if (e =? 101) || (e =? 69) then
        let '(sg, r') :=
          match r with
          | g :: r'' => if (g =? 43) || (g =? 45) then ([g], r'') else ([], r)
          | [] => ([], r)
          end in
        match span_digits r' with
        | ([], _) => ([], s)
        | (es, r'') => (e :: sg ++ es, r'')
        end
      else ([], s)
  | [] => ([], s)
  end.

(** The match of [NUMBER_RE] at the head of the text: an [int] when only
    the integer part is there, which [int(integer)] refuses with a
    [ValueError] when it has too many digits, a float otherwise. *)
Definition match_number (py : interpreter) (s : list N) : outcome (json * list N) :=
  let '(sign, s1) := number_sign s in
  match number_int s1 with
  | None => Raise DecodeError
  | Some (ipart, r1) =>
      let '(frac, r2) := number_frac r1 in
      let '(exp, r3) := number_exp r2 in
      match frac, exp with
      | [], [] =>
          if exceeds_int_limit py (length ipart) then Raise ValueError
          else
            let n := Z.of_N (int_of_digits ipart) in
            Ok (JInt (if sign is [] then n else (- n)%Z), r3)
      | _, _ => Ok (JFloat (sign ++ ipart ++ frac ++ exp), r3)
      end
  end.

(** [d[key] = value] on a dict kept in insertion order. *)
Fixpoint dict_set (k : list N) (v : json) (m : list (list N * json)) :
    list (list N * json) :=
  match m with
  | [] => [(k, v)]
  | (k', v') :: m' =>
      if decide (k = k') then (k, v) :: m' else (k', v') :: dict_set k v m'
  end.

(** [dict(pairs)] *)
Definition dict_of_pairs (ps : list (list N * json)) : list (list N * json) :=
  fold_left (fun m kv => dict_set kv.1 kv.2 m) ps [].

(** [scan_once], with [JSONObject] and [JSONArray] after their first member
    has been found to be there.  Entering a dict or a list is one level of
    the recursion, and raises [RecursionError] when [depth] has none left;
    the exceptions come in the order of the text.  [fuel] bounds the number
    of values and members read; twice the length of the text is more than
    any text takes ([loads]). *)
Fixpoint scan_once (py : interpreter) (depth fuel : nat) (s : list N) :
    outcome (json * list N) :=
  match fuel with
  | O => Raise DecodeError
  | S fuel =>
      match s with
      | [] => Raise DecodeError
      | c :: s1 =>
          if c =? 34 then '(str, r) ← of_option (scanstring s1); Ok (JStr str, r)
          else if c =? 123 then
            match depth with
            | O => Raise RecursionError
            | S depth =>
                match skip_ws s1 with
                | c1 :: r =>
                    if c1 =? 125 then Ok (JObj [], r)
                    else
                      '(ps, r') ← scan_pairs py depth fuel (c1 :: r);
                      Ok (JObj (dict_of_pairs ps), r')
                | [] => Raise DecodeError
                end
            end
          else if c =? 91 then
            match depth with
            | O => Raise RecursionError
            | S depth =>
                match skip_ws s1 with
                | c1 :: r =>
                    if c1 =? 93 then Ok (JArr [], r)
                    else '(vs, r') ← scan_items py depth fuel (c1 :: r); Ok (JArr vs, r')
                | [] => Raise DecodeError
                end
            end
          else if strip_prefix (lit "null") s is Some r then Ok (JNull, r)
          else if strip_prefix (lit "true") s is Some r then Ok (JBool true, r)
          else if strip_prefix (lit "false") s is Some r then Ok (JBool false, r)
          else if strip_prefix (lit "NaN") s is Some r then Ok (JFloat (lit "NaN"), r)
          else if strip_prefix (lit "Infinity") s is Some r
          then Ok (JFloat (lit "Infinity"), r)
          else if strip_prefix (lit "-Infinity") s is Some r
          then Ok (JFloat (lit "-Infinity"), r)
          else match_number py s
      end
  end
with scan_pairs (py : interpreter) (depth fuel : nat) (s : list N) :
    outcome (list (list N * json) * list N) :=
  match fuel with
  | O => Raise DecodeError
  | S fuel =>
      match s with
      | q :: s1 =>
          if q =? 34 then
            '(key, s2) ← of_option (scanstring s1);
            match skip_ws s2 with
            | colon :: s3 =>
                if colon =? 58 then
                  '(v, s4) ← scan_once py depth fuel (skip_ws s3);
                  match skip_ws s4 with
                  | d :: s5 =>
                      if d =? 125 then Ok ([(key, v)], s5)
                      else if d =? 44 then
                        '(ps, s6) ← scan_pairs py depth fuel (skip_ws s5);
                        Ok ((key, v) :: ps, s6)
                      else Raise DecodeError
                  | [] => Raise DecodeError
                  end
                else Raise DecodeError
            | [] => Raise DecodeError
            end
          else Raise DecodeError
      | [] => Raise DecodeError
      end
  end
with scan_items (py : interpreter) (depth fuel : nat) (s : list N) :
    outcome (list json * list N) :=
  match fuel with
  | O => Raise DecodeError
  | S fuel =>
      '(v, s1) ← scan_once py depth fuel s;
      match skip_ws s1 with
      | d :: s2 =>
          if d =? 93 then Ok ([v], s2)
          else if d =? 44 then
            '(vs, s3) ← scan_items py depth fuel (skip_ws s2);
            Ok (v :: vs, s3)
          else Raise DecodeError
      | [] => Raise DecodeError
      end
  end.

(** [json.loads(text)]: one value between optional white space, and nothing
    after it. *)
Definition loads (py : interpreter) (text : list N) : outcome json :=
  '(v, r) ← scan_once py (decoder_depth py) (S (2 * length text)) (skip_ws text);
  if skip_ws r is [] then Ok v else Raise DecodeError.

(** ** The script's world

    The script calls [requests.post] and [requests.get], keeps its module
    globals, and writes to standard output.  The model ends at the call:
    the transport is all that lies below it, the session of [requests]
    (which adds its default headers, quotes the URL and follows redirects),
    the network and the server.  A call hands the transport one request and
    comes back with one response, the last one when redirects were followed,
    or the transport fails.  The URL and the API key are taken to be ones
    that [requests] accepts, as those of the script are: what it raises for
    a URL without a scheme or a header value with a line break is outside
    the model. *)

Inductive method : Type := GET | POST.

(** The request of a call: the method of the call, its URL and its
    [headers=] dict as the script gives them, and the text that [requests]
    writes for its body ([None] when the call has no [json=] argument, or
    [None] for it). *)
Record request : Type := Request {
  req_method : method;
  req_url : list N;
  req_headers : gmap (list N) (list N);
  req_body : option (list N);
}.

(** The response that a call returns: its status code and the text of its
    body. *)
Record response : Type := Response {
  status_code : Z;
  text : list N;
}.

Inductive reply : Type :=
  | Answer (r : response)
  | Failure (f : failure).

(** The module globals ([resp] is unbound until the first call returns), the
    requests of the calls made so far, oldest first and one entry per call
    that got to the transport, and the lines printed so far, each as the
    label and the value given to a [print] that returned (what a [print]
    that raised had written of its line is not kept). *)
Record world : Type := World {
  API_URL : list N;
  API_KEY : list N;
  atomic : json;
  resp : option response;
  sent : list request;
  stdout : list (list N * json);
}.

Definition set_resp (r : response) (w : world) : world :=
  World (API_URL w) (API_KEY w) (atomic w) (Some r) (sent w) (stdout w).

Definition add_sent (rq : request) (w : world) : world :=
  World (API_URL w) (API_KEY w) (atomic w) (resp w) (sent w ++ [rq]) (stdout w).

Definition add_stdout (line : list N * json) (w : world) : world :=
  World (API_URL w) (API_KEY w) (atomic w) (resp w) (sent w) (stdout w ++ [line]).

(** A computation of the script: it reads and changes the world, and returns
    or raises.  An exception ends the computation: nothing of the script
    catches one. *)
Definition M (A : Type) : Type := world → outcome A * world.

#[export] Instance M_ret : MRet M := λ A a w, (Ok a, w).

#[export] Instance M_bind : MBind M := λ A B k m w,
  match m w with
  | (Ok a, w') => k a w'
  | (Raise e, w') => (Raise e, w')
  end.

Definition get_world : M world := λ w, (Ok w, w).
Definition modify (f : world → world) : M unit := λ w, (Ok (), f w).
Definition raise {A} (e : error) : M A := λ w, (Raise e, w).

(** A [str] that standard output cannot encode: one that holds a surrogate
    (standard output is taken to be UTF-8 with strict errors, the default
    on a UTF-8 locale). *)
Definition has_surrogate (s : list N) : bool :=
  existsb (λ c, (0xd800 <=? c) && (c <=? 0xdfff)) s.

(** The exception that stops [repr] of a value, the first one in the order
    in which it visits the value: the [RecursionError] of a value that is
    nested deeper than [depth] (every value entered is one level of the
    recursion, the members and keys of a list or dict one more), and the
    [ValueError] of an integer of too many digits. *)
Fixpoint repr_error (py : interpreter) (depth : nat) (v : json) {struct depth} :
    option error :=
  match depth with
  | O => Some RecursionError
  | S depth =>
      match v with
      | JInt z => if exceeds_int_limit py (int_digits z) then Some ValueError else None
      | JArr l => first_error (repr_error py depth) l
      | JObj m => first_error (λ kv, repr_error py depth kv.2) m
      | _ => None
      end
  end.

(** The exception that stops [print(label, value)], whose labels are
    ASCII: a [str] is written as it is, and must be encoded; an integer is
    written with [str(int)]; a list or dict is written as its [repr], in
    which the surrogates of a string are escaped. *)
Definition print_error (py : interpreter) (v : json) : option error :=
  match v with
  | JStr s => if has_surrogate s then Some UnicodeEncodeError else None
  | JInt z => if exceeds_int_limit py (int_digits z) then Some ValueError else None
  | JArr _ | JObj _ => repr_error py (repr_depth py) v
  | _ => None
  end.

Section Script.

(** The interpreter that runs the script. *)
Variable py : interpreter.

(** The remote service and the network before it, with what [requests]
    does between the call and the response it returns: what a call comes
    back with, given the requests made earlier. *)
Variable server : list request → request → reply.

(** [resp.json()] *)
Definition resp_json (r : response) : M json :=
  match loads py (text r) with
  | Ok v => mret v
  | Raise e => raise e
  end.

(** [print(label, value)]: the line is on standard output when [print]
    returns. *)
Definition print (label : list N) (v : json) : M unit :=
  match print_error py v with
  | Some e => raise e
  | None => modify (add_stdout (label, v))
  end.

(** One call through the transport: a single attempt. *)
Definition send (rq : request) : M response := λ w,
  match server (sent w) rq with
  | Answer r => (Ok r, add_sent rq w)
  | Failure f => (Raise (TransportError f), add_sent rq w)
  end.

(** [requests.post(url, headers=headers, json=js)]: no body for [None];
    otherwise the body is written first, and nothing goes to the transport
    when that raises. *)
Definition requests_post (url : list N) (headers : gmap (list N) (list N))
    (js : json) : M response :=
  match js with
  | JNull => send (Request POST url headers None)
  | _ =>
      match encode_error py (encoder_depth py) js with
      | Some e => raise e
      | None => send (Request POST url headers (Some (dumps js)))
      end
  end.

(** [requests.get(url, headers=headers)] *)
Definition requests_get (url : list N) (headers : gmap (list N) (list N)) :
    M response :=
  send (Request GET url headers None).

(** Lines 21-26: the POST of [atomic] to [/append], and [resp.json()]. *)
Definition append : M json :=
  g ← get_world;
  r ← requests_post (API_URL g ++ lit "/append")
        {[ lit "x-api-key" := API_KEY g;
           lit "Content-Type" := lit "application/json" ]}
        (atomic g);
  _ ← modify (set_resp r);
  resp_json r.

(** Lines 29-33: the GET of [/scan], and [resp.json()]. *)
Definition scan : M json :=
  g ← get_world;
  r ← requests_get (API_URL g ++ lit "/scan") {[ lit "x-api-key" := API_KEY g ]};
  _ ← modify (set_resp r);
  resp_json r.

(** Lines 36-40: the GET of [/query?trace_id=py-demo-123e], and
    [resp.json()].  The trace id is part of the literal. *)
Definition query : M json :=
  g ← get_world;
  r ← requests_get (API_URL g ++ lit "/query?trace_id=py-demo-123e")
        {[ lit "x-api-key" := API_KEY g ]};
  _ ← modify (set_resp r);
  resp_json r.

(** The whole script, from line 20 on. *)
Definition script : M unit :=
  v ← append; _ ← print (lit "Append result:") v;
  v ← scan; _ ← print (lit "Scan result:") v;
  v ← query; print (lit "Query result:") v.

End Script.

(** The three operations. *)
Inductive operation : Type := Append | Scan | Query.

Definition run (py : interpreter) (server : list request → request → reply)
    (op : operation) : M json :=
  match op with
  | Append => append py server
  | Scan => scan py server
  | Query => query py server
  end.

(** The body that [requests] writes for a [json=] argument. *)
Definition body_of (js : json) : option (list N) :=
  match js with
  | JNull => None
  | _ => Some (dumps js)
  end.

(** The request that each operation hands to the transport in a world, when
    it gets that far. *)
Definition request_of (op : operation) (w : world) : request :=
  match op with
  | Append =>
      Request POST (API_URL w ++ lit "/append")
        {[ lit "x-api-key" := API_KEY w;
           lit "Content-Type" := lit "application/json" ]}
        (body_of (atomic w))
  | Scan => Request GET (API_URL w ++ lit "/scan") {[ lit "x-api-key" := API_KEY w ]} None
  | Query =>
      Request GET (API_URL w ++ lit "/query?trace_id=py-demo-123e")
        {[ lit "x-api-key" := API_KEY w ]} None
  end.

(** The exception that an operation raises before anything goes to the
    transport: the one of writing the body, which only [append] has. *)
Definition prepare_error (py : interpreter) (op : operation) (w : world) : option error :=
  match op with
  | Append => encode_error py (encoder_depth py) (atomic w)
  | _ => None
  end.

Arguments run : simpl never.
Arguments request_of : simpl never.

(** ** The script's globals (lines 5-18) *)

Definition atomic_literal : json :=
  JObj
    [ (lit "entity_type", JStr (lit "function"));
      (lit "intent", JStr (lit "run_code"));
      (lit "this", JStr (lit "add"));
      (lit "did",
        JObj [ (lit "actor", JStr (lit "python-client"));
               (lit "action", JStr (lit "run_code")) ]);
      (lit "input", JObj [ (lit "args", JArr [JInt 1; JInt 2]) ]);
      (lit "metadata",
        JObj [ (lit "trace_id", JStr (lit "py-demo-123e"));
               (lit "created_at", JStr (lit "2025-11-07T13:00:00Z")) ]) ].

(** The world when line 20 is reached. *)
Definition initial_world : world :=
  World (lit "http://localhost:8000") (lit "changeme") atomic_literal None [] [].

(** The world of the script with another event. *)
Definition world_with (event : json) : world :=
  World (lit "http://localhost:8000") (lit "changeme") event None [] [].

(** An interpreter with the defaults of CPython: at most [4300] digits, and
    the recursion limit of [1000] for the depths.  The frames of the script
    and of [requests] take a few levels of it, so that the depths of a run
    are somewhat less than [1000]: the scenarios below are of values far
    under or over them. *)
Definition cpython : interpreter := Interpreter 4300 1000 1000 1000.

(** A mocked server: the same response to every request. *)
Definition mock (r : response) : list request → request → reply :=
  λ _ _, Answer r.

(** A transport that fails every call. *)
Definition unreachable (f : failure) : list request → request → reply :=
  λ _ _, Failure f.

(** A server that answers the first request and fails every later one. *)
Definition answers_once (r : response) (f : failure) : list request → request → reply :=
  λ earlier _, if earlier is [] then Answer r else Failure f.

(** A server that answers every request with the body it was sent, and with
    no text when it was sent none. *)
Definition echo : list request → request → reply :=
  λ _ rq, Answer (Response 200 (default [] (req_body rq))).

(** The requests of the whole script, in the order of its three calls, and
    the labels of its three [print]s. *)
Definition script_requests (w : world) : list request :=
  [request_of Append w; request_of Scan w; request_of Query w].

Definition script_labels : list (list N) :=
  [lit "Append result:"; lit "Scan result:"; lit "Query result:"].

(** ** Notions of the specification that the script has no counterpart of *)

(** An authentication or authorization failure status. *)
Definition auth_failure_status (status : Z) : bool :=
  ((status =? 401) || (status =? 403))%Z.


(** Query-parameter encoding (RFC 3986): every character but the unreserved
    ones is written as the [%XX] escapes of its UTF-8 bytes. *)
Definition unreserved (c : N) : bool :=
  ((65 <=? c) && (c <=? 90)) || ((97 <=? c) && (c <=? 122)) || is_digit c
  || (c =? 45) || (c =? 46) || (c =? 95) || (c =? 126).

Definition utf8 (c : N) : list N :=
  if c <? 0x80 then [c]
  else if c <? 0x800 then [0xc0 + c / 64; 0x80 + c `mod` 64]
  else if c <? 0x10000 then
    [0xe0 + c / 4096; 0x80 + (c / 64) `mod` 64; 0x80 + c `mod` 64]
  else
    [0xf0 + c / 262144; 0x80 + (c / 4096) `mod` 64;
     0x80 + (c / 64) `mod` 64; 0x80 + c `mod` 64].

Definition upper_hex_digit (d : N) : N := if d <? 10 then 48 + d else 55 + d.

Definition percent_encode (s : list N) : list N :=
  flat_map
    (λ c, if unreserved c then [c]
          else flat_map (λ b, [37; upper_hex_digit (b / 16); upper_hex_digit (b `mod` 16)])
                 (utf8 c))
    s.

(** A float literal: what [NUMBER_RE] matches with a fraction or an
    exponent, as the [repr] of every finite float is. *)
Definition float_literal (l : list N) : bool :=
  match match_number (Interpreter 0 0 0 0) l with
  | Ok (JFloat _, []) => true
  | _ => false
  end.

(** A value that [dumps] writes and [loads] reads back, the limits of the
    interpreter apart: every float finite, every string a sequence of scalar
    values, no key twice in a dict (a Python dict holds a key once).  An
    Atomic Event of strings, numbers, lists and string-keyed mappings is such
    a value. *)
Fixpoint well_formed (v : json) : Prop :=
  match v with
  | JNull | JBool _ | JInt _ => True
  | JFloat l => float_literal l = true
  | JStr s => Forall scalar_value s
  | JArr l => foldr (λ x P, well_formed x ∧ P) True l
  | JObj m =>
      NoDup m.*1
      ∧ foldr (λ kv P, Forall scalar_value kv.1 ∧ well_formed kv.2 ∧ P) True m
  end.

(** The nesting of a value: the lists and dicts that are entered to reach
    its innermost member. *)
Fixpoint nesting (v : json) : nat :=
  match v with
  | JArr l => S (foldr (λ x n, Nat.max (nesting x) n) O l)
  | JObj m => S (foldr (λ kv n, Nat.max (nesting kv.2) n) O m)
  | _ => O
  end.

(** The digits of the longest integer of a value. *)
Fixpoint max_int_digits (v : json) : nat :=
  match v with
  | JInt z => int_digits z
  | JArr l => foldr (λ x n, Nat.max (max_int_digits x) n) O l
  | JObj m => foldr (λ kv n, Nat.max (max_int_digits kv.2) n) O m
  | _ => O
  end.

(** A value whose text [json.loads] reads back in an interpreter: it is
    well formed, its nesting is within the depth of the decoder and its
    integers are within the limit. *)
Definition reads (py : interpreter) (v : json) : Prop :=
  well_formed v
  ∧ (nesting v ≤ decoder_depth py)%nat
  ∧ exceeds_int_limit py (max_int_digits v) = false.

(** ** Measures used in the proofs *)

(** A text after which a number ends: it does not go on with a digit, a
    fraction or an exponent. *)
Definition delimited (rest : list N) : Prop :=
  match rest with
  | [] => True
  | c :: _ => is_digit c = false ∧ c ≠ 46 ∧ c ≠ 101 ∧ c ≠ 69
  end.

(** Fuel that is enough for [scan_once] to read a value back. *)
Fixpoint json_size (v : json) : nat :=
  match v with
  | JArr l => S (foldr (λ x n, S (json_size x + n)) O l)
  | JObj m => S (foldr (λ kv n, S (json_size kv.2 + n)) O m)
  | _ => 1
  end.

(** A text that starts with the first character of a value: white space is
    not skipped over it, and it closes no list and no dict. *)
Definition starts_value (s : list N) : Prop :=
  match s with
  | c :: _ => is_ws c = false ∧ c ≠ 93 ∧ c ≠ 125
  | [] => False
  end.

(** [scan_once] reads the text of [v] back as [v], before any text after
    which a number ends, given depth and fuel for [v], when the integers of
    [v] are within the limit. *)
Definition reads_back (py : interpreter) (v : json) : Prop :=
  ∀ depth fuel rest,
    (nesting v ≤ depth)%nat → exceeds_int_limit py (max_int_digits v) = false →
    (json_size v ≤ fuel)%nat → delimited rest →
    scan_once py depth fuel (dumps v ++ rest) = Ok (v, rest).

(** [scalar_value], [well_formed] and [reads] as checks that compute. *)
Definition scalar_valueb (c : N) : bool :=
  (c <? 0x110000) && negb ((0xd800 <=? c) && (c <=? 0xdfff)).

Fixpoint well_formedb (v : json) : bool :=
  match v with
  | JNull | JBool _ | JInt _ => true
  | JFloat l => float_literal l
  | JStr s => forallb scalar_valueb s
  | JArr l => forallb well_formedb l
  | JObj m =>
      bool_decide (NoDup m.*1)
      && forallb (λ kv, forallb scalar_valueb kv.1 && well_formedb kv.2) m
  end.

Definition readsb (py : interpreter) (v : json) : bool :=
  well_formedb v && (nesting v <=? decoder_depth py)%nat
  && negb (exceeds_int_limit py (max_int_digits v)).

(** ** Notions used in the properties of the bodies *)

(** A character that a JSON value can start with: the quote, a bracket, the
    first letter of [null], [true], [false], [NaN] and [Infinity], the minus
    sign or a digit. *)
Definition starts_json (c : N) : bool :=
  (c =? 34) || (c =? 123) || (c =? 91) || (c =? 110) || (c =? 116) || (c =? 102)
  || (c =? 78) || (c =? 73) || (c =? 45) || is_digit c.

(** A value none of whose mappings holds a key twice, as every Python value
    is. *)
Fixpoint keys_unique (v : json) : Prop :=
  match v with
  | JArr l => foldr (λ x P, keys_unique x ∧ P) True l
  | JObj m => NoDup m.*1 ∧ foldr (λ kv P, keys_unique kv.2 ∧ P) True m
  | _ => True
  end.

(** A member that is read back: [depth] and the limit are enough for it. *)
Definition member_reads_back (py : interpreter) (depth : nat) (x : json) : Prop :=
  well_formed x
  ∧ ∀ fuel rest, (json_size x ≤ fuel)%nat → delimited rest →
      scan_once py depth fuel (dumps x ++ rest) = Ok (x, rest).

(** * The round trip of the codec *)

(** ** Escapes *)

Lemma hex_value_hex_digit d : d < 16 → hex_value (hex_digit d) = Some d.
Proof.
  intros Hd. unfold hex_value, hex_digit, is_digit.
  destruct (N.ltb_spec d 10).
  - replace ((48 <=? 48 + d) && (48 + d <=? 57)) with true
      by (symmetry; apply andb_true_iff; split; apply N.leb_le; lia).
    f_equal. lia.
  - replace ((48 <=? 87 + d) && (87 + d <=? 57)) with false
      by (symmetry; apply andb_false_iff; right; apply N.leb_gt; lia).
    replace ((97 <=? 87 + d) && (87 + d <=? 102)) with true
      by (symmetry; apply andb_true_iff; split; apply N.leb_le; lia).
    f_equal. lia.
Qed.

Lemma decode_hex4 n h1 h2 h3 h4 :
  n < 0x10000 → hex4 n = [h1; h2; h3; h4] → decode_uXXXX h1 h2 h3 h4 = Some n.
Proof.
  intros Hn [= <- <- <- <-]. unfold decode_uXXXX.
  assert (∀ a, a `mod` 16 < 16) as Hm by (intros; apply N.mod_lt; lia).
  rewrite !hex_value_hex_digit by apply Hm. simpl. f_equal.
  clear Hm. zify. Z.to_euclidean_division_equations. lia.
Qed.

Lemma lor_shifted a b : b < 1024 → N.lor (a * 1024) b = a * 1024 + b.
Proof.
  intros Hb.
  assert (N.land (a * 1024) b = 0) as H0.
  { apply N.bits_inj. intros i. rewrite N.land_spec, N.bits_0.
    destruct (N.lt_ge_cases i 10) as [Hi|Hi].
    - change 1024 with (2 ^ 10). by rewrite N.mul_pow2_bits_low.
    - apply andb_false_iff. right.
      destruct (N.eq_0_gt_0_cases b) as [->|Hpos]; [apply N.bits_0|].
      apply N.bits_above_log2.
      assert (N.log2 b < 10); [|lia].
      apply N.log2_lt_pow2; [done|]. by change (2 ^ 10) with 1024. }
  rewrite <- N.lxor_lor by done. symmetry. by apply N.add_nocarry_lxor.
Qed.

(** The two halves of a surrogate pair, as [escape_char] computes them. *)
Lemma high_surrogate_eq n :
  n < 0x100000 → N.lor 0xd800 (N.land (N.shiftr n 10) 0x3ff) = 0xd800 + n / 1024.
Proof.
  intros Hn. rewrite N.shiftr_div_pow2. change (2 ^ 10) with 1024.
  change 0x3ff with (N.ones 10). rewrite N.land_ones. change (2 ^ 10) with 1024.
  assert (n / 1024 < 1024) by (apply N.Div0.div_lt_upper_bound; lia).
  rewrite N.mod_small by done.
  change 0xd800 with (54 * 1024). by apply lor_shifted.
Qed.

Lemma low_surrogate_eq n : N.lor 0xdc00 (N.land n 0x3ff) = 0xdc00 + n `mod` 1024.
Proof.
  change 0x3ff with (N.ones 10). rewrite N.land_ones. change (2 ^ 10) with 1024.
  change 0xdc00 with (55 * 1024). apply lor_shifted. apply N.mod_lt. lia.
Qed.

Lemma join_surrogates n :
  n < 0x100000 →
  0x10000 + N.lor (N.shiftl (0xd800 + n / 1024 - 0xd800) 10) (0xdc00 + n `mod` 1024 - 0xdc00)
  = 0x10000 + n.
Proof.
  intros Hn. f_equal.
  rewrite (N.add_comm 0xd800), (N.add_comm 0xdc00), !N.add_sub.
  rewrite N.shiftl_mul_pow2. change (2 ^ 10) with 1024.
  rewrite lor_shifted by (apply N.mod_lt; lia).
  rewrite (N.div_mod n 1024) at 3 by lia. lia.
Qed.

(** ** Strings *)

Lemma scanstring_bmp h1 h2 h3 h4 u s3 str r :
  decode_uXXXX h1 h2 h3 h4 = Some u →
  ¬ (0xd800 ≤ u ≤ 0xdbff) →
  scanstring s3 = Some (str, r) →
  scanstring (92 :: 117 :: h1 :: h2 :: h3 :: h4 :: s3) = Some (u :: str, r).
Proof.
  intros Hd Hu Hs.
  change (scanstring (92 :: 117 :: h1 :: h2 :: h3 :: h4 :: s3)) with
    (uni ← decode_uXXXX h1 h2 h3 h4;
     let single := '(str, r) ← scanstring s3; Some (uni :: str, r) in
     if (0xd800 <=? uni) && (uni <=? 0xdbff) then
       match s3 with
       | b :: u :: s4 =>
           if (b =? 92) && (u =? 117) then
             match s4 with
             | g1 :: g2 :: g3 :: g4 :: s5 =>
                 uni2 ← decode_uXXXX g1 g2 g3 g4;
                 if (0xdc00 <=? uni2) && (uni2 <=? 0xdfff) then
                   let c2 :=
                     0x10000 + N.lor (N.shiftl (uni - 0xd800) 10) (uni2 - 0xdc00) in
                   '(str, r) ← scanstring s5; Some (c2 :: str, r)
                 else single
             | _ => None
             end
           else single
       | _ => single
       end
     else single).
  rewrite Hd. simpl.
  replace ((0xd800 <=? u) && (u <=? 0xdbff)) with false.
  - by rewrite Hs.
  - symmetry. apply andb_false_iff.
    destruct (N.leb_spec 0xd800 u); [right; apply N.leb_gt; lia | by left].
Qed.

Lemma scanstring_pair h1 h2 h3 h4 g1 g2 g3 g4 u1 u2 s5 str r :
  decode_uXXXX h1 h2 h3 h4 = Some u1 →
  0xd800 ≤ u1 ≤ 0xdbff →
  decode_uXXXX g1 g2 g3 g4 = Some u2 →
  0xdc00 ≤ u2 ≤ 0xdfff →
  scanstring s5 = Some (str, r) →
  scanstring (92 :: 117 :: h1 :: h2 :: h3 :: h4 :: 92 :: 117 :: g1 :: g2 :: g3 :: g4 :: s5)
  = Some (0x10000 + N.lor (N.shiftl (u1 - 0xd800) 10) (u2 - 0xdc00) :: str, r).
Proof.
  intros Hd1 Hu1 Hd2 Hu2 Hs.
  change (scanstring (92 :: 117 :: h1 :: h2 :: h3 :: h4 :: 92 :: 117 :: g1 :: g2 :: g3 :: g4 :: s5))
    with
    (uni ← decode_uXXXX h1 h2 h3 h4;
     let single :=
       '(str, r) ← scanstring (92 :: 117 :: g1 :: g2 :: g3 :: g4 :: s5);
       Some (uni :: str, r) in
     if (0xd800 <=? uni) && (uni <=? 0xdbff) then
       uni2 ← decode_uXXXX g1 g2 g3 g4;
       if (0xdc00 <=? uni2) && (uni2 <=? 0xdfff) then
         let c2 := 0x10000 + N.lor (N.shiftl (uni - 0xd800) 10) (uni2 - 0xdc00) in
         '(str, r) ← scanstring s5; Some (c2 :: str, r)
       else single
     else single).
  rewrite Hd1. simpl.
  replace ((0xd800 <=? u1) && (u1 <=? 0xdbff)) with true
    by (symmetry; apply andb_true_iff; split; apply N.leb_le; lia).
  rewrite Hd2. simpl.
  replace ((0xdc00 <=? u2) && (u2 <=? 0xdfff)) with true
    by (symmetry; apply andb_true_iff; split; apply N.leb_le; lia).
  by rewrite Hs.
Qed.

(** [scanstring] reads the replacement of a character back as the
    character. *)
Lemma scanstring_escape_char c tail str r :
  scalar_value c →
  scanstring tail = Some (str, r) →
  scanstring (escape_char c ++ tail) = Some (c :: str, r).
Proof.
  intros [Hlt Hsur] Hs. unfold escape_char.
  destruct (N.eqb_spec c 34) as [->|N34]; [by simpl; rewrite Hs|].
  destruct (N.eqb_spec c 92) as [->|N92]; [by simpl; rewrite Hs|].
  destruct (N.eqb_spec c 10) as [->|N10];
    [change (lit "\n") with [92; 110]; by simpl; rewrite Hs|].
  destruct (N.eqb_spec c 13) as [->|N13];
    [change (lit "\r") with [92; 114]; by simpl; rewrite Hs|].
  destruct (N.eqb_spec c 9) as [->|N9];
    [change (lit "\t") with [92; 116]; by simpl; rewrite Hs|].
  destruct (N.eqb_spec c 8) as [->|N8];
    [change (lit "\b") with [92; 98]; by simpl; rewrite Hs|].
  destruct (N.eqb_spec c 12) as [->|N12];
    [change (lit "\f") with [92; 102]; by simpl; rewrite Hs|].
  destruct ((32 <=? c) && (c <=? 126)) eqn:Hprint.
  - apply andb_true_iff in Hprint as [H32%N.leb_le _].
    simpl.
    rewrite (proj2 (N.eqb_neq c 34)), (proj2 (N.eqb_neq c 92)) by done.
    rewrite (proj2 (N.ltb_ge c 32)) by done.
    by rewrite Hs.
  - change (lit "\u") with [92; 117].
    destruct (N.ltb_spec c 0x10000) as [Hbmp|Hast].
    + apply scanstring_bmp; [by apply decode_hex4 | lia | done].
    + rewrite high_surrogate_eq, low_surrogate_eq by lia.
      set (n := c - 0x10000).
      assert (n < 0x100000) as Hn by lia.
      assert (n / 1024 < 1024) as Hhi by (apply N.Div0.div_lt_upper_bound; lia).
      assert (n `mod` 1024 < 1024) as Hlo by (apply N.mod_lt; lia).
      pose proof (N.le_0_l (n / 1024)) as Hhi0.
      pose proof (N.le_0_l (n `mod` 1024)) as Hlo0.
      replace (c :: str) with (0x10000 + n :: str) by (f_equal; lia).
      rewrite <- (join_surrogates n) by done.
      apply scanstring_pair; [apply decode_hex4; [lia|done] | lia
                             | apply decode_hex4; [lia|done] | lia | done].
Qed.

Lemma scanstring_encode s rest :
  Forall scalar_value s →
  scanstring (flat_map escape_char s ++ 34 :: rest) = Some (s, rest).
Proof.
  induction 1 as [|c s Hc _ IH]; [done|].
  simpl. rewrite <- app_assoc. by apply scanstring_escape_char.
Qed.

(** ** Integers *)

Lemma is_digit_spec c : is_digit c = true ↔ 48 ≤ c ≤ 57.
Proof. unfold is_digit. rewrite andb_true_iff, !N.leb_le. done. Qed.

(** The digits of a positive number: a first digit that is not [0], then
    digits, and their value is the number. *)
Lemma digits_spec fuel : ∀ n acc,
  0 < n → n < 2 ^ N.of_nat fuel →
  ∃ d ds, digits fuel n acc = d :: ds ++ acc
          ∧ is_digit d = true ∧ d ≠ 48
          ∧ Forall (λ c, is_digit c = true) ds
          ∧ fold_left digit_step (d :: ds) 0 = n.
Proof.
  induction fuel as [|fuel IH]; intros n acc Hpos Hlt.
  { simpl in Hlt. lia. }
  simpl. destruct (N.ltb_spec n 10) as [Hsmall|Hbig].
  - exists (48 + n `mod` 10), []. rewrite N.mod_small by done.
    repeat split; [apply is_digit_spec; lia | lia | constructor |].
    unfold digit_step. simpl. lia.
  - destruct (IH (n / 10) ((48 + n `mod` 10) :: acc)) as (d & ds & E & Hd & Hnz & Hds & Hv).
    + apply N.div_str_pos. lia.
    + apply N.Div0.div_lt_upper_bound.
      rewrite Nat2N.inj_succ, N.pow_succ_r' in Hlt. lia.
    + exists d, (ds ++ [48 + n `mod` 10]).
      assert (n `mod` 10 < 10) as Hm by (apply N.mod_lt; lia).
      pose proof (N.le_0_l (n `mod` 10)).
      repeat split; [by rewrite E, <- app_assoc | done | done | |].
      * apply Forall_app. split; [done|]. apply Forall_singleton, is_digit_spec. lia.
      * rewrite fold_left_app.
        change (fold_left digit_step ds (digit_step 0 d))
          with (fold_left digit_step (d :: ds) 0).
        rewrite Hv. unfold digit_step. simpl.
        rewrite (N.div_mod n 10) at 3 by lia. lia.
Qed.

Lemma repr_nat_spec n :
  0 < n →
  ∃ d ds, repr_nat n = d :: ds
          ∧ is_digit d = true ∧ d ≠ 48
          ∧ Forall (λ c, is_digit c = true) ds
          ∧ int_of_digits (d :: ds) = n.
Proof.
  intros Hpos. unfold repr_nat.
  destruct (digits_spec (S (N.to_nat (N.log2 n))) n [] Hpos) as (d & ds & E & H).
  - rewrite Nat2N.inj_succ, N2Nat.id. by apply N.log2_spec.
  - exists d, ds. by rewrite E, app_nil_r.
Qed.

Lemma span_digits_app ds rest :
  Forall (λ c, is_digit c = true) ds → delimited rest →
  span_digits (ds ++ rest) = (ds, rest).
Proof.
  intros Hds Hrest. induction Hds as [|c ds Hc _ IH]; simpl.
  - destruct rest as [|c rest]; [done|]. simpl.
    destruct Hrest as (-> & _). done.
  - by rewrite Hc, IH.
Qed.

(** [span_digits] stops where the digits stop, whatever the text goes on
    with after a delimiter. *)
Lemma span_digits_spec s ds r :
  span_digits s = (ds, r) →
  s = ds ++ r ∧ Forall (λ c, is_digit c = true) ds.
Proof.
  revert ds r. induction s as [|c s IH]; intros ds r H; simpl in H.
  - injection H as <- <-. by split.
  - destruct (is_digit c) eqn:Hc.
    + destruct (span_digits s) as [ds' r'] eqn:E. injection H as <- <-.
      destruct (IH _ _ eq_refl) as [-> Hds]. split; [done|]. by constructor.
    + injection H as <- <-. by split.
Qed.

Lemma span_digits_app_gen s ds r rest :
  span_digits s = (ds, r) → delimited rest →
  span_digits (s ++ rest) = (ds, r ++ rest).
Proof.
  intros H Hrest. revert ds r H. induction s as [|c s IH]; intros ds r H; simpl in H.
  - injection H as <- <-. simpl. destruct rest as [|c rest]; [done|].
    simpl. by destruct Hrest as (-> & _).
  - simpl. destruct (is_digit c) eqn:Hc.
    + destruct (span_digits s) as [ds' r'] eqn:E. injection H as <- <-.
      by rewrite (IH _ _ eq_refl).
    + by injection H as <- <-.
Qed.

(** ** Numbers *)

Lemma number_frac_delimited rest : delimited rest → number_frac rest = ([], rest).
Proof.
  destruct rest as [|p [|f r]]; [done | done |].
  intros (_ & Hp%N.eqb_neq & _). unfold number_frac. by rewrite Hp.
Qed.

Lemma number_exp_delimited rest : delimited rest → number_exp rest = ([], rest).
Proof.
  destruct rest as [|e r]; [done|].
  intros (_ & _ & He1%N.eqb_neq & He2%N.eqb_neq). unfold number_exp.
  by rewrite He1, He2.
Qed.

Lemma number_sign_spec s sg s1 : number_sign s = (sg, s1) → s = sg ++ s1.
Proof.
  destruct s as [|c s]; simpl; [by intros [= <- <-]|].
  destruct (N.eqb_spec c 45) as [->|_]; by intros [= <- <-].
Qed.

Lemma number_int_spec s ip r :
  number_int s = Some (ip, r) →
  s = ip ++ r ∧ ∃ d ds, ip = d :: ds ∧ is_digit d = true
                        ∧ Forall (λ c, is_digit c = true) ds.
Proof.
  destruct s as [|d s2]; [done|]. simpl.
  destruct (N.eqb_spec d 48) as [->|_].
  { intros [= <- <-]. split; [done|]. by exists 48, []. }
  destruct (is_digit d) eqn:Hd; [|done].
  destruct (span_digits s2) as [ds r'] eqn:E. intros [= <- <-].
  apply span_digits_spec in E as [-> Hds]. split; [done|]. by exists d, ds.
Qed.

Lemma number_frac_spec s fr r :
  number_frac s = (fr, r) →
  s = fr ++ r
  ∧ (fr = [] ∨ ∃ fs, fr = 46 :: fs ∧ Forall (λ c, is_digit c = true) fs).
Proof.
  unfold number_frac. destruct s as [|p [|f s]]; try (intros [= <- <-]; by auto).
  destruct (N.eqb_spec p 46) as [->|_]; [|intros [= <- <-]; by auto].
  destruct (is_digit f) eqn:Hf; [|intros [= <- <-]; by auto]. simpl.
  destruct (span_digits s) as [fs r'] eqn:E. intros [= <- <-].
  apply span_digits_spec in E as [-> Hfs]. split; [done|].
  right. exists (f :: fs). split; [done|]. by constructor.
Qed.

Lemma number_exp_spec s ex r :
  number_exp s = (ex, r) →
  s = ex ++ r
  ∧ (ex = []
     ∨ ∃ e sg es, ex = e :: sg ++ es ∧ (e = 101 ∨ e = 69)
                  ∧ (sg = [] ∨ sg = [43] ∨ sg = [45])
                  ∧ Forall (λ c, is_digit c = true) es).
Proof.
  unfold number_exp. destruct s as [|e s]; [intros [= <- <-]; by auto|].
  destruct ((e =? 101) || (e =? 69)) eqn:He; [|intros [= <- <-]; by auto].
  apply orb_true_iff in He. rewrite !N.eqb_eq in He.
  destruct (match s with
            | g :: r'' => if (g =? 43) || (g =? 45) then ([g], r'') else ([], s)
            | [] => ([], s)
            end) as [sg r'] eqn:Hsg.
  assert (s = sg ++ r' ∧ (sg = [] ∨ sg = [43] ∨ sg = [45])) as [-> Hsg'].
  { destruct s as [|g s]; [injection Hsg as <- <-; by auto|].
    destruct ((g =? 43) || (g =? 45)) eqn:Hg; injection Hsg as <- <-; [|by auto].
    apply orb_true_iff in Hg. rewrite !N.eqb_eq in Hg.
    split; [done|]. destruct Hg as [->| ->]; auto. }
  destruct (span_digits r') as [[|e1 es] r''] eqn:E; intros [= <- <-]; [by auto|].
  apply span_digits_spec in E as [-> Hes].
  split; [simpl; by rewrite <- app_assoc|]. right. by exists e, sg, (e1 :: es).
Qed.

(** Each part is matched in the same way when the text goes on after a
    delimiter. *)
Lemma number_sign_app s sg s1 rest :
  number_sign s = (sg, s1) → s1 ≠ [] → number_sign (s ++ rest) = (sg, s1 ++ rest).
Proof.
  destruct s as [|c s]; simpl; [by intros [= <- <-]|].
  destruct (c =? 45); by intros [= <- <-].
Qed.

Lemma number_int_app s ip r rest :
  number_int s = Some (ip, r) → delimited rest →
  number_int (s ++ rest) = Some (ip, r ++ rest).
Proof.
  destruct s as [|d s2]; [done|]. simpl. intros H Hrest.
  destruct (d =? 48); [by injection H as <- <-|].
  destruct (is_digit d); [|done].
  destruct (span_digits s2) as [ds r'] eqn:E. injection H as <- <-.
  by rewrite (span_digits_app_gen _ _ _ rest E).
Qed.

Lemma number_frac_app s fr r rest :
  number_frac s = (fr, r) → delimited rest →
  number_frac (s ++ rest) = (fr, r ++ rest).
Proof.
  intros H Hrest. destruct s as [|p [|f s]].
  - injection H as <- <-. by apply number_frac_delimited.
  - injection H as <- <-. destruct rest as [|f rest]; [done|].
    destruct Hrest as (Hf & _). simpl. by rewrite Hf, andb_false_r.
  - revert H. unfold number_frac. simpl.
    destruct ((p =? 46) && is_digit f); [|by intros [= <- <-]].
    destruct (span_digits s) as [fs r'] eqn:E. intros [= <- <-].
    by rewrite (span_digits_app_gen _ _ _ rest E).
Qed.

Lemma number_exp_app s ex rest :
  number_exp s = (ex, []) → delimited rest →
  number_exp (s ++ rest) = (ex, rest).
Proof.
  intros H Hrest. destruct s as [|e s].
  { injection H as <-. by apply number_exp_delimited. }
  revert H. unfold number_exp. simpl.
  destruct ((e =? 101) || (e =? 69)); [|done].
  destruct s as [|g s].
  { simpl. done. }
  simpl.
  destruct ((g =? 43) || (g =? 45)).
  - destruct (span_digits s) as [[|e1 es] r''] eqn:E; [done|]. intros [= <- ->].
    by rewrite (span_digits_app_gen _ _ _ rest E).
  - destruct (span_digits (g :: s)) as [[|e1 es] r''] eqn:E; [done|]. intros [= <- ->].
    change (g :: s ++ rest) with ((g :: s) ++ rest).
    by rewrite (span_digits_app_gen _ _ _ rest E).
Qed.

(** After the integer part, a delimited text gives neither a fraction nor
    an exponent. *)
Lemma match_number_int py (neg : bool) d ds rest :
  (d = 48 ∧ ds = []) ∨ (is_digit d = true ∧ d ≠ 48 ∧ Forall (λ c, is_digit c = true) ds) →
  delimited rest →
  exceeds_int_limit py (length (d :: ds)) = false →
  match_number py ((if neg then [45] else []) ++ d :: ds ++ rest)
  = Ok (JInt (if neg then - Z.of_N (int_of_digits (d :: ds))
              else Z.of_N (int_of_digits (d :: ds)))%Z, rest).
Proof.
  intros Hshape Hrest Hlim. unfold match_number.
  assert (is_digit d = true) as Hd.
  { destruct Hshape as [[-> _]|[? _]]; done. }
  assert ((d =? 45) = false) as H45.
  { apply N.eqb_neq. apply is_digit_spec in Hd. lia. }
  assert (number_sign ((if neg then [45] else []) ++ d :: ds ++ rest)
          = (if neg then [45] else [], d :: ds ++ rest)) as ->.
  { destruct neg; simpl; [done|]. by rewrite H45. }
  assert (number_int (d :: ds ++ rest) = Some (d :: ds, rest)) as ->.
  { simpl. destruct Hshape as [[-> ->]|(_ & Hnz & Hds)]; [done|].
    rewrite (proj2 (N.eqb_neq d 48)), Hd, span_digits_app by done. done. }
  rewrite number_frac_delimited, number_exp_delimited by done.
  rewrite Hlim. by destruct neg.
Qed.

Lemma int_digits_repr_nat p : int_digits (Z.pos p) = length (repr_nat (N.pos p)).
Proof. reflexivity. Qed.

Lemma match_number_repr_int py z rest :
  delimited rest → exceeds_int_limit py (int_digits z) = false →
  match_number py (repr_int z ++ rest) = Ok (JInt z, rest).
Proof.
  intros Hrest Hlim. destruct z as [|p|p].
  - apply (match_number_int py false 48 [] rest); [by left | done | done].
  - destruct (repr_nat_spec (Npos p)) as (d & ds & E & Hd & Hnz & Hds & Hv); [done|].
    pose proof (match_number_int py false d ds rest) as H.
    change ((if false then [45] else []) ++ d :: ds ++ rest)
      with ((d :: ds) ++ rest) in H.
    rewrite Hv, <- E in H. apply H; [by right | done |].
    exact Hlim.
  - destruct (repr_nat_spec (Npos p)) as (d & ds & E & Hd & Hnz & Hds & Hv); [done|].
    pose proof (match_number_int py true d ds rest) as H.
    change ((if true then [45] else []) ++ d :: ds ++ rest)
      with (45 :: (d :: ds) ++ rest) in H.
    rewrite Hv, <- E in H. apply H; [by right | done |].
    exact Hlim.
Qed.

(** The parts of a float literal. *)
Lemma float_literal_parts l :
  float_literal l = true →
  ∃ sg ip fr ex,
    l = sg ++ ip ++ fr ++ ex
    ∧ number_sign l = (sg, ip ++ fr ++ ex)
    ∧ number_int (ip ++ fr ++ ex) = Some (ip, fr ++ ex)
    ∧ number_frac (fr ++ ex) = (fr, ex)
    ∧ number_exp ex = (ex, [])
    ∧ ¬ (fr = [] ∧ ex = []).
Proof.
  unfold float_literal, match_number. intros H.
  destruct (number_sign l) as [sg s1] eqn:Esg.
  destruct (number_int s1) as [[ip r1]|] eqn:Eip; [|done].
  destruct (number_frac r1) as [fr r2] eqn:Efr.
  destruct (number_exp r2) as [ex r3] eqn:Eex.
  assert (r3 = [] ∧ ¬ (fr = [] ∧ ex = [])) as [-> Hne].
  { destruct fr, ex; try (destruct r3; [|done]; split; [done|]; by intros [??]).
    all: by destruct (exceeds_int_limit _ _). }
  pose proof (number_sign_spec _ _ _ Esg) as Hl.
  pose proof (number_int_spec _ _ _ Eip) as [Hs1 _].
  pose proof (number_frac_spec _ _ _ Efr) as [Hr1 _].
  pose proof (number_exp_spec _ _ _ Eex) as [Hr2 _].
  rewrite app_nil_r in Hr2. subst r2 r1 s1.
  exists sg, ip, fr, ex. by subst l.
Qed.

Lemma match_number_float py l rest :
  float_literal l = true → delimited rest →
  match_number py (l ++ rest) = Ok (JFloat l, rest).
Proof.
  intros (sg & ip & fr & ex & -> & Esg & Eip & Efr & Eex & Hne)%float_literal_parts Hrest.
  unfold match_number.
  rewrite (number_sign_app _ _ _ rest Esg).
  2: { apply number_int_spec in Eip as [_ (d & ds & -> & _)]. done. }
  rewrite <- !app_assoc.
  assert (number_int (ip ++ fr ++ ex ++ rest) = Some (ip, fr ++ ex ++ rest)) as ->.
  { pose proof (number_int_app _ _ _ rest Eip Hrest) as H.
    by rewrite <- !app_assoc in H. }
  assert (number_frac (fr ++ ex ++ rest) = (fr, ex ++ rest)) as ->.
  { pose proof (number_frac_app _ _ _ rest Efr Hrest) as H.
    by rewrite <- !app_assoc in H. }
  rewrite (number_exp_app _ _ rest Eex Hrest).
  destruct fr, ex; [by destruct Hne | done..].
Qed.

(** ** Values *)

Lemma json_ind (P : json → Prop) :
  P JNull → (∀ b, P (JBool b)) → (∀ n, P (JInt n)) → (∀ l, P (JFloat l)) →
  (∀ s, P (JStr s)) →
  (∀ l, Forall P l → P (JArr l)) →
  (∀ m, Forall (λ kv, P kv.2) m → P (JObj m)) →
  ∀ v, P v.
Proof.
  intros HN HB HI HF HS HA HO. fix IH 1. intros [|b|n|l|s|l|m].
  - exact HN.
  - apply HB.
  - apply HI.
  - apply HF.
  - apply HS.
  - apply HA. induction l as [|x l IHl]; constructor; [apply IH | exact IHl].
  - apply HO. induction m as [|[k x] m IHm]; constructor; [apply IH | exact IHm].
Qed.

Lemma skip_ws_starts_value s : starts_value s → skip_ws s = s.
Proof. destruct s as [|c s]; [done|]. simpl. by intros (-> & _). Qed.

Lemma starts_value_app s rest : starts_value s → starts_value (s ++ rest).
Proof. by destruct s. Qed.

Lemma starts_value_digit d s : is_digit d = true → starts_value (d :: s).
Proof.
  intros Hd%is_digit_spec. unfold starts_value, is_ws.
  repeat split; [|lia|lia].
  rewrite !orb_false_iff, !N.eqb_neq. lia.
Qed.

Lemma number_sign_cases s sg s1 : number_sign s = (sg, s1) → sg = [] ∨ sg = [45].
Proof.
  destruct s as [|c s]; simpl; [intros [= <- <-]; by left|].
  destruct (c =? 45); intros [= <- <-]; auto.
Qed.

(** A float literal starts with a digit, or with the minus sign and a
    digit. *)
Lemma float_literal_head l :
  float_literal l = true →
  ∃ d t, is_digit d = true ∧ (l = d :: t ∨ l = 45 :: d :: t).
Proof.
  intros (sg & ip & fr & ex & -> & Esg & Eip & _)%float_literal_parts.
  apply number_sign_cases in Esg as Hsg.
  apply number_int_spec in Eip as [_ (d & ds & -> & Hd & _)].
  exists d, (ds ++ fr ++ ex). split; [done|].
  destruct Hsg as [-> | ->]; [by left | by right].
Qed.

Lemma dumps_starts_value v : well_formed v → starts_value (dumps v).
Proof.
  destruct v as [|[]|[|p|p]|l|s|l|m]; try done.
  - intros _. destruct (repr_nat_spec (Npos p)) as (d & ds & E & Hd & _); [done|].
    simpl. rewrite E. by apply starts_value_digit.
  - intros (d & t & Hd & [-> | ->])%float_literal_head; [by apply starts_value_digit|done].
Qed.

Lemma dict_set_fresh k v m : k ∉ m.*1 → dict_set k v m = m ++ [(k, v)].
Proof.
  induction m as [|[k' v'] m IH]; [done|].
  simpl. intros [Hne Hnotin]%not_elem_of_cons.
  rewrite decide_False by done. by rewrite IH.
Qed.

Lemma dict_of_pairs_from acc ps :
  NoDup (acc.*1 ++ ps.*1) →
  fold_left (λ m kv, dict_set kv.1 kv.2 m) ps acc = acc ++ ps.
Proof.
  revert acc. induction ps as [|[k v] ps IH]; intros acc Hnd.
  { by rewrite app_nil_r. }
  simpl. rewrite dict_set_fresh.
  - rewrite IH; [by rewrite <- app_assoc|].
    by rewrite fmap_app, <- app_assoc.
  - simpl in Hnd. apply NoDup_app in Hnd as (_ & Hdisj & _).
    intros Hin. apply (Hdisj k Hin). by left.
Qed.

Lemma dict_of_pairs_unique m : NoDup m.*1 → dict_of_pairs m = m.
Proof. intros Hnd. by apply (dict_of_pairs_from [] m). Qed.

(** What [scan_once] does on the first character of each kind of value. *)
Lemma scan_once_string py depth fuel s1 :
  scan_once py depth (S fuel) (34 :: s1)
  = '(str, r) ← of_option (scanstring s1); Ok (JStr str, r).
Proof. reflexivity. Qed.

Lemma scan_once_array py depth fuel s1 :
  scan_once py (S depth) (S fuel) (91 :: s1) =
    match skip_ws s1 with
    | c1 :: r =>
        if c1 =? 93 then Ok (JArr [], r)
        else '(vs, r') ← scan_items py depth fuel (c1 :: r); Ok (JArr vs, r')
    | [] => Raise DecodeError
    end.
Proof. reflexivity. Qed.

Lemma scan_once_object py depth fuel s1 :
  scan_once py (S depth) (S fuel) (123 :: s1) =
    match skip_ws s1 with
    | c1 :: r =>
        if c1 =? 125 then Ok (JObj [], r)
        else
          '(ps, r') ← scan_pairs py depth fuel (c1 :: r);
          Ok (JObj (dict_of_pairs ps), r')
    | [] => Raise DecodeError
    end.
Proof. reflexivity. Qed.

Lemma scan_once_digit py depth fuel d s :
  is_digit d = true → scan_once py depth (S fuel) (d :: s) = match_number py (d :: s).
Proof.
  intros Hd%is_digit_spec.
  assert (∀ k, k < 48 ∨ 57 < k → (d =? k) = false ∧ (k =? d) = false) as Hne.
  { intros k Hk. rewrite !N.eqb_neq. lia. }
  cbn [scan_once].
  rewrite (proj1 (Hne 34 ltac:(lia))), (proj1 (Hne 123 ltac:(lia))),
    (proj1 (Hne 91 ltac:(lia))).
  change (lit "null") with (110 :: lit "ull").
  change (lit "true") with (116 :: lit "rue").
  change (lit "false") with (102 :: lit "alse").
  change (lit "NaN") with (78 :: lit "aN").
  change (lit "Infinity") with (73 :: lit "nfinity").
  change (lit "-Infinity") with (45 :: lit "Infinity").
  cbn [strip_prefix].
  by rewrite (proj2 (Hne 110 ltac:(lia))), (proj2 (Hne 116 ltac:(lia))),
    (proj2 (Hne 102 ltac:(lia))), (proj2 (Hne 78 ltac:(lia))),
    (proj2 (Hne 73 ltac:(lia))), (proj2 (Hne 45 ltac:(lia))).
Qed.

Lemma scan_once_minus py depth fuel d s :
  is_digit d = true →
  scan_once py depth (S fuel) (45 :: d :: s) = match_number py (45 :: d :: s).
Proof.
  intros Hd%is_digit_spec.
  assert ((73 =? d) = false) as H73 by (apply N.eqb_neq; lia).
  cbn [scan_once].
  change (45 =? 34) with false. change (45 =? 123) with false.
  change (45 =? 91) with false. cbv iota.
  change (lit "null") with (110 :: lit "ull").
  change (lit "true") with (116 :: lit "rue").
  change (lit "false") with (102 :: lit "alse").
  change (lit "NaN") with (78 :: lit "aN").
  change (lit "Infinity") with (73 :: lit "nfinity").
  change (lit "-Infinity") with (45 :: 73 :: lit "nfinity").
  cbn [strip_prefix].
  change (110 =? 45) with false. change (116 =? 45) with false.
  change (102 =? 45) with false. change (78 =? 45) with false.
  change (73 =? 45) with false. change (45 =? 45) with true. cbv iota.
  by rewrite H73.
Qed.

Lemma scan_once_repr_int py depth fuel z rest :
  delimited rest → exceeds_int_limit py (int_digits z) = false →
  scan_once py depth (S fuel) (repr_int z ++ rest) = Ok (JInt z, rest).
Proof.
  intros Hrest Hlim. rewrite <- (match_number_repr_int py z rest Hrest Hlim).
  destruct z as [|p|p].
  - by apply (scan_once_digit py depth fuel 48 rest).
  - destruct (repr_nat_spec (Npos p)) as (d & ds & E & Hd & _); [done|].
    change (repr_int (Z.pos p)) with (repr_nat (N.pos p)). rewrite E.
    by apply (scan_once_digit py depth fuel d (ds ++ rest)).
  - destruct (repr_nat_spec (Npos p)) as (d & ds & E & Hd & _); [done|].
    change (repr_int (Z.neg p)) with (45 :: repr_nat (N.pos p)). rewrite E.
    by apply (scan_once_minus py depth fuel d (ds ++ rest)).
Qed.

Lemma scan_once_float py depth fuel l rest :
  float_literal l = true → delimited rest →
  scan_once py depth (S fuel) (l ++ rest) = Ok (JFloat l, rest).
Proof.
  intros Hl Hrest. rewrite <- (match_number_float py l rest Hl Hrest).
  destruct (float_literal_head l Hl) as (d & t & Hd & [-> | ->]).
  - by apply (scan_once_digit py depth fuel d (t ++ rest)).
  - by apply (scan_once_minus py depth fuel d (t ++ rest)).
Qed.

Lemma delimited_close c rest : c = 44 ∨ c = 93 ∨ c = 125 → delimited (c :: rest).
Proof. by intros [-> | [-> | ->]]. Qed.

Lemma join_cons_cons sep p q ps : join sep (p :: q :: ps) = p ++ sep ++ join sep (q :: ps).
Proof. reflexivity. Qed.

Lemma scan_items_last py depth fuel s v r :
  scan_once py depth fuel s = Ok (v, 93 :: r) →
  scan_items py depth (S fuel) s = Ok ([v], r).
Proof. intros H. cbn [scan_items]. by rewrite H. Qed.

Lemma scan_items_more py depth fuel s v t vs r :
  scan_once py depth fuel s = Ok (v, 44 :: 32 :: t) →
  starts_value t →
  scan_items py depth fuel t = Ok (vs, r) →
  scan_items py depth (S fuel) s = Ok (v :: vs, r).
Proof.
  intros H Ht Hvs. cbn [scan_items]. rewrite H.
  cbn [mbind outcome_bind].
  change (skip_ws (44 :: 32 :: t)) with (44 :: 32 :: t). cbv iota.
  change (44 =? 93) with false. change (44 =? 44) with true. cbv iota.
  change (skip_ws (32 :: t)) with (skip_ws t).
  by rewrite skip_ws_starts_value, Hvs.
Qed.

Lemma join_starts_value {A} sep (f : A → list N) (l : list A) :
  l ≠ [] → Forall (λ x, starts_value (f x)) l → starts_value (join sep (map f l)).
Proof.
  intros Hne Hl. destruct Hl as [|x l Hx Hl]; [done|].
  destruct l; [done|]. cbn [map]. rewrite join_cons_cons. by apply starts_value_app.
Qed.

Lemma scan_items_join py depth l :
  l ≠ [] →
  Forall (member_reads_back py depth) l →
  ∀ fuel rest,
    (foldr (λ x n, S (json_size x + n)) O l ≤ fuel)%nat →
    scan_items py depth fuel (join (lit ", ") (map dumps l) ++ 93 :: rest) = Ok (l, rest).
Proof.
  intros Hne Hl. induction Hl as [|x l [Hwf Hx] Hl IH]; [done|].
  intros [|fuel] rest Hfuel; simpl in Hfuel; [lia|].
  destruct l as [|y l].
  - apply scan_items_last. apply Hx; [lia | apply delimited_close; auto].
  - cbn [map]. rewrite join_cons_cons, <- !app_assoc.
    change (lit ", ") with [44; 32] at 1.
    eapply scan_items_more.
    + apply Hx; [lia | apply delimited_close; auto].
    + apply starts_value_app.
      apply (join_starts_value (lit ", ") dumps (y :: l)); [done|].
      eapply Forall_impl; [exact Hl|]. intros z [Hz _]. by apply dumps_starts_value.
    + apply (IH ltac:(done)). lia.
Qed.

Lemma scan_pairs_last py depth fuel s1 key t v r :
  scanstring s1 = Some (key, 58 :: 32 :: t) →
  starts_value t →
  scan_once py depth fuel t = Ok (v, 125 :: r) →
  scan_pairs py depth (S fuel) (34 :: s1) = Ok ([(key, v)], r).
Proof.
  intros Hkey Ht Hv. cbn [scan_pairs].
  change (34 =? 34) with true. cbv iota.
  rewrite Hkey. cbn [of_option mbind outcome_bind].
  change (skip_ws (58 :: 32 :: t)) with (58 :: 32 :: t). cbv iota.
  change (58 =? 58) with true. cbv iota.
  change (skip_ws (32 :: t)) with (skip_ws t).
  rewrite skip_ws_starts_value, Hv by done. cbn [mbind outcome_bind].
  change (skip_ws (125 :: r)) with (125 :: r). cbv iota.
  by change (125 =? 125) with true.
Qed.

Lemma scan_pairs_more py depth fuel s1 key t v t' ps r :
  scanstring s1 = Some (key, 58 :: 32 :: t) →
  starts_value t →
  scan_once py depth fuel t = Ok (v, 44 :: 32 :: t') →
  starts_value t' →
  scan_pairs py depth fuel t' = Ok (ps, r) →
  scan_pairs py depth (S fuel) (34 :: s1) = Ok ((key, v) :: ps, r).
Proof.
  intros Hkey Ht Hv Ht' Hps. cbn [scan_pairs].
  change (34 =? 34) with true. cbv iota.
  rewrite Hkey. cbn [of_option mbind outcome_bind].
  change (skip_ws (58 :: 32 :: t)) with (58 :: 32 :: t). cbv iota.
  change (58 =? 58) with true. cbv iota.
  change (skip_ws (32 :: t)) with (skip_ws t).
  rewrite skip_ws_starts_value, Hv by done. cbn [mbind outcome_bind].
  change (skip_ws (44 :: 32 :: t')) with (44 :: 32 :: t'). cbv iota.
  change (44 =? 125) with false. change (44 =? 44) with true. cbv iota.
  change (skip_ws (32 :: t')) with (skip_ws t').
  by rewrite skip_ws_starts_value, Hps.
Qed.

Lemma member_text k v tail :
  (encode_basestring_ascii k ++ lit ": " ++ dumps v) ++ tail
  = 34 :: flat_map escape_char k ++ 34 :: 58 :: 32 :: dumps v ++ tail.
Proof.
  unfold encode_basestring_ascii. change (lit ": ") with [58; 32].
  simpl. by rewrite <- !app_assoc.
Qed.

Lemma scan_pairs_join py depth (m : list (list N * json)) :
  m ≠ [] →
  Forall (λ kv, Forall scalar_value kv.1 ∧ member_reads_back py depth kv.2) m →
  ∀ fuel rest,
    (foldr (λ kv n, S (json_size kv.2 + n)) O m ≤ fuel)%nat →
    scan_pairs py depth fuel
      (join (lit ", ")
         (map (λ kv, encode_basestring_ascii kv.1 ++ lit ": " ++ dumps kv.2) m)
       ++ 125 :: rest)
    = Ok (m, rest).
Proof.
  intros Hne Hm. induction Hm as [|[k x] m (Hk & Hwf & Hx) Hm IH]; [done|].
  intros [|fuel] rest Hfuel; simpl in Hfuel; [lia|].
  cbn [fst snd] in Hk, Hwf, Hx.
  destruct m as [|[k' y] m].
  - cbn [map join fst snd]. rewrite member_text.
    eapply scan_pairs_last.
    + apply scanstring_encode, Hk.
    + by apply starts_value_app, dumps_starts_value.
    + apply Hx; [lia | apply delimited_close; auto].
  - cbn [map]. rewrite join_cons_cons. cbn [fst snd].
    set (M := encode_basestring_ascii k ++ lit ": " ++ dumps x).
    rewrite <- !app_assoc. subst M. rewrite member_text.
    change (lit ", ") with [44; 32] at 1.
    eapply scan_pairs_more.
    + apply scanstring_encode, Hk.
    + by apply starts_value_app, dumps_starts_value.
    + apply Hx; [lia | apply delimited_close; auto].
    + apply starts_value_app.
      apply (join_starts_value (lit ", ")
               (λ kv : list N * json,
                  encode_basestring_ascii kv.1 ++ lit ": " ++ dumps kv.2)
               ((k', y) :: m)); [done|].
      eapply Forall_impl; [exact Hm|]. by intros [??] _.
    + apply (IH ltac:(done)). lia.
Qed.

Lemma scan_once_array_items py depth fuel text vs r :
  starts_value text →
  scan_items py depth fuel text = Ok (vs, r) →
  scan_once py (S depth) (S fuel) (91 :: text) = Ok (JArr vs, r).
Proof.
  intros Ht Hvs. rewrite scan_once_array, skip_ws_starts_value by done.
  destruct text as [|c1 text]; [done|]. destruct Ht as (_ & H93 & _).
  by rewrite (proj2 (N.eqb_neq c1 93)), Hvs.
Qed.

Lemma scan_once_object_pairs py depth fuel text ps r :
  starts_value text →
  scan_pairs py depth fuel text = Ok (ps, r) →
  scan_once py (S depth) (S fuel) (123 :: text) = Ok (JObj (dict_of_pairs ps), r).
Proof.
  intros Ht Hps. rewrite scan_once_object, skip_ws_starts_value by done.
  destruct text as [|c1 text]; [done|]. destruct Ht as (_ & _ & H125).
  by rewrite (proj2 (N.eqb_neq c1 125)), Hps.
Qed.

Lemma well_formed_list l :
  well_formed (JArr l) ↔ Forall well_formed l.
Proof.
  simpl. induction l as [|x l IH]; simpl.
  - split; [constructor | done].
  - rewrite Forall_cons. by rewrite IH.
Qed.

Lemma well_formed_dict m :
  well_formed (JObj m)
  ↔ NoDup m.*1 ∧ Forall (λ kv, Forall scalar_value kv.1 ∧ well_formed kv.2) m.
Proof.
  simpl. apply and_iff_compat_l. induction m as [|kv m IH]; simpl.
  - split; [constructor | done].
  - rewrite Forall_cons, IH. tauto.
Qed.

(** ** The limits *)

Lemma exceeds_int_limit_mono py n m :
  (n ≤ m)%nat → exceeds_int_limit py m = false → exceeds_int_limit py n = false.
Proof.
  unfold exceeds_int_limit. rewrite !andb_false_iff, !Nat.ltb_ge. lia.
Qed.

Lemma foldr_max_le {A} (f : A → nat) (l : list A) (d : nat) :
  (foldr (λ x n, Nat.max (f x) n) O l ≤ d)%nat ↔ Forall (λ x, (f x ≤ d)%nat) l.
Proof.
  induction l as [|x l IH]; simpl.
  - split; [constructor | lia].
  - rewrite Forall_cons, <- IH. lia.
Qed.

Lemma foldr_max_limit {A} py (f : A → nat) (l : list A) :
  exceeds_int_limit py (foldr (λ x n, Nat.max (f x) n) O l) = false →
  Forall (λ x, exceeds_int_limit py (f x) = false) l.
Proof.
  intros H. apply Forall_forall. intros x Hx.
  eapply exceeds_int_limit_mono; [|exact H].
  assert (foldr (λ x n, Nat.max (f x) n) O l ≤ foldr (λ x n, Nat.max (f x) n) O l)%nat
    as Hle by lia.
  apply foldr_max_le in Hle. rewrite Forall_forall in Hle. by apply Hle.
Qed.

(** [scan_once] reads the text of a well-formed value back. *)
Lemma scan_once_dumps py v : well_formed v → reads_back py v.
Proof.
  induction v as [|b|n|l|s|l IH|m IH] using json_ind;
    intros Hwf depth [|fuel] rest Hdepth Hlim Hfuel Hrest;
    try (simpl in Hfuel; lia).
  - reflexivity.
  - by destruct b.
  - by apply scan_once_repr_int.
  - by apply scan_once_float.
  - simpl in Hwf. cbn [dumps]. unfold encode_basestring_ascii.
    rewrite <- app_comm_cons, <- app_assoc, scan_once_string.
    change ([34] ++ rest) with (34 :: rest).
    by rewrite scanstring_encode.
  - apply well_formed_list in Hwf.
    destruct depth as [|depth]; [simpl in Hdepth; lia|].
    cbn [nesting] in Hdepth. apply le_S_n, foldr_max_le in Hdepth.
    cbn [max_int_digits] in Hlim. apply foldr_max_limit in Hlim.
    cbn [dumps]. change (lit "[") with [91]. change (lit "]") with [93].
    rewrite <- !app_assoc. change ([91] ++ ?t) with (91 :: t).
    change ([93] ++ rest) with (93 :: rest).
    destruct l as [|x l]; [reflexivity|].
    assert (Forall (member_reads_back py depth) (x :: l)) as Hl.
    { apply Forall_forall. intros y Hy.
      rewrite Forall_forall in IH, Hwf, Hdepth, Hlim.
      split; [by apply Hwf|]. intros f r Hf Hr. by apply IH; auto. }
    apply scan_once_array_items.
    + apply starts_value_app, join_starts_value; [done|].
      eapply Forall_impl; [exact Hwf|]. apply dumps_starts_value.
    + apply scan_items_join; [done | done |]. simpl in Hfuel. simpl. lia.
  - apply well_formed_dict in Hwf as [Hnd Hwf].
    destruct depth as [|depth]; [simpl in Hdepth; lia|].
    cbn [nesting] in Hdepth.
    apply le_S_n, (foldr_max_le (λ kv : list N * json, nesting kv.2)) in Hdepth.
    cbn [max_int_digits] in Hlim.
    apply (foldr_max_limit py (λ kv : list N * json, max_int_digits kv.2)) in Hlim.
    cbn [dumps]. change (lit "{") with [123]. change (lit "}") with [125].
    rewrite <- !app_assoc. change ([123] ++ ?t) with (123 :: t).
    change ([125] ++ rest) with (125 :: rest).
    destruct m as [|kv m]; [reflexivity|].
    assert (Forall (λ kv, Forall scalar_value kv.1 ∧ member_reads_back py depth kv.2)
              (kv :: m)) as Hm.
    { apply Forall_forall. intros y Hy.
      rewrite Forall_forall in IH, Hwf, Hdepth, Hlim.
      destruct (Hwf y Hy) as [Hk Hv]. split; [done|].
      split; [done|]. intros f r Hf Hr. by apply IH; auto. }
    rewrite <- (dict_of_pairs_unique (kv :: m) Hnd) at 2.
    apply scan_once_object_pairs.
    + apply starts_value_app, join_starts_value; [done|].
      apply Forall_forall. by intros [??] _.
    + apply scan_pairs_join; [done | done |]. simpl in Hfuel. simpl. lia.
Qed.

(** ** The length of the text is fuel enough *)

Lemma join_size_bound {A} (g : A → nat) (f : A → list N) sep (l : list A) :
  (1 ≤ length sep)%nat →
  Forall (λ a, (g a ≤ length (f a))%nat) l →
  (foldr (λ a n, S (g a + n)) O l ≤ S (length (join sep (map f l))))%nat.
Proof.
  intros Hsep. induction 1 as [|a l Ha Hl IH]; [simpl; lia|].
  destruct l as [|b l]; [simpl in *; lia|].
  cbn [map]. rewrite join_cons_cons. cbn [foldr map] in *.
  rewrite !length_app. lia.
Qed.

Lemma json_size_le_length v : well_formed v → (json_size v ≤ length (dumps v))%nat.
Proof.
  induction v as [|b|n|l|s|l IH|m IH] using json_ind; intros Hwf.
  - simpl. lia.
  - destruct b; simpl; lia.
  - pose proof (dumps_starts_value (JInt n) Hwf) as Hs.
    destruct (dumps (JInt n)); [done|]. simpl. lia.
  - pose proof (dumps_starts_value (JFloat l) Hwf) as Hs.
    destruct (dumps (JFloat l)); [done|]. simpl. lia.
  - simpl. lia.
  - apply well_formed_list in Hwf.
    cbn [json_size dumps]. rewrite !length_app.
    change (length (lit "[")) with 1%nat. change (length (lit "]")) with 1%nat.
    pose proof (join_size_bound json_size dumps (lit ", ") l
                  ltac:(change (length (lit ", ")) with 2%nat; lia)) as Hb.
    rewrite Forall_forall in Hb, IH, Hwf. specialize (Hb ltac:(auto)). lia.
  - apply well_formed_dict in Hwf as [_ Hwf].
    cbn [json_size dumps]. rewrite !length_app.
    change (length (lit "{")) with 1%nat. change (length (lit "}")) with 1%nat.
    pose proof (join_size_bound (λ kv : list N * json, json_size kv.2)
                  (λ kv, encode_basestring_ascii kv.1 ++ lit ": " ++ dumps kv.2)
                  (lit ", ") m
                  ltac:(change (length (lit ", ")) with 2%nat; lia)) as Hb.
    rewrite Forall_forall in Hb, IH, Hwf.
    assert (∀ kv, kv ∈ m →
              (json_size kv.2
               ≤ length (encode_basestring_ascii kv.1 ++ lit ": " ++ dumps kv.2))%nat) as Hkv.
    { intros kv Hin. rewrite !length_app.
      destruct (Hwf kv Hin) as [_ Hw]. specialize (IH kv Hin Hw). lia. }
    specialize (Hb Hkv). lia.
Qed.

(** [loads] reads the text that [dumps] writes for a value back as that
    value, within the limits of the interpreter. *)
Lemma loads_dumps py v : reads py v → loads py (dumps v) = Ok v.
Proof.
  intros (Hwf & Hdepth & Hlim). unfold loads.
  rewrite skip_ws_starts_value by by apply dumps_starts_value.
  pose proof (scan_once_dumps py v Hwf (decoder_depth py)
                (S (2 * length (dumps v))) []) as H.
  rewrite app_nil_r in H. rewrite H; [done | done | done | | done].
  pose proof (json_size_le_length v Hwf). lia.
Qed.

(** ** The checks that compute *)

Lemma scalar_valueb_sound c : scalar_valueb c = true → scalar_value c.
Proof.
  unfold scalar_valueb, scalar_value.
  rewrite andb_true_iff, negb_true_iff, andb_false_iff, N.ltb_lt, !N.leb_gt. lia.
Qed.

Lemma forallb_scalar_valueb_sound s :
  forallb scalar_valueb s = true → Forall scalar_value s.
Proof.
  rewrite forallb_forall, Forall_forall. intros H c Hc.
  apply scalar_valueb_sound, H. by apply list_elem_of_In.
Qed.

Lemma well_formedb_sound v : well_formedb v = true → well_formed v.
Proof.
  induction v as [|b|n|l|s|l IH|m IH] using json_ind; try done.
  - apply forallb_scalar_valueb_sound.
  - intros H. apply well_formed_list. cbn [well_formedb] in H.
    rewrite forallb_forall in H. rewrite Forall_forall in IH |- *.
    intros x Hx. apply IH; [done|]. by apply H, list_elem_of_In.
  - cbn [well_formedb]. intros [Hnd H]%andb_true_iff.
    apply well_formed_dict. split; [by apply bool_decide_eq_true in Hnd|].
    rewrite forallb_forall in H. rewrite Forall_forall in IH |- *.
    intros kv Hkv. specialize (H kv (proj1 (list_elem_of_In _ _) Hkv)).
    apply andb_true_iff in H as [Hk Hv].
    split; [by apply forallb_scalar_valueb_sound | by apply IH].
Qed.

Lemma readsb_sound py v : readsb py v = true → reads py v.
Proof.
  unfold readsb, reads.
  rewrite !andb_true_iff, negb_true_iff, Nat.leb_le.
  intros [[Hwf Hd] Hl]. split; [by apply well_formedb_sound | done].
Qed.

(** * More on the codec *)

(** ** White space and the text of a value *)

Lemma skip_ws_blank ws s : Forall (λ c, is_ws c = true) ws → skip_ws (ws ++ s) = skip_ws s.
Proof. induction 1 as [|c ws Hc _ IH]; [done|]. simpl. by rewrite Hc. Qed.

Lemma loads_blank py s : Forall (λ c, is_ws c = true) s → loads py s = Raise DecodeError.
Proof.
  intros H. unfold loads.
  by rewrite <- (app_nil_r s), skip_ws_blank.
Qed.

Lemma delimited_blank ws : Forall (λ c, is_ws c = true) ws → delimited ws.
Proof.
  destruct 1 as [|c ws Hc _]; [done|]. unfold delimited, is_digit.
  unfold is_ws in Hc. rewrite !orb_true_iff, !N.eqb_eq in Hc.
  rewrite andb_false_iff, !N.leb_gt. lia.
Qed.

Lemma loads_padded py v ws1 ws2 :
  reads py v →
  Forall (λ c, is_ws c = true) ws1 → Forall (λ c, is_ws c = true) ws2 →
  loads py (ws1 ++ dumps v ++ ws2) = Ok v.
Proof.
  intros (Hwf & Hdepth & Hlim) H1 H2. unfold loads.
  rewrite skip_ws_blank by done.
  rewrite skip_ws_starts_value by by apply starts_value_app, dumps_starts_value.
  rewrite (scan_once_dumps py v Hwf); cbn [mbind outcome_bind].
  - rewrite <- (app_nil_r ws2), skip_ws_blank by done. done.
  - done.
  - done.
  - pose proof (json_size_le_length v Hwf). rewrite !length_app. lia.
  - by apply delimited_blank.
Qed.


(** ** The text of a value is ASCII *)

(** A literal of printable characters. *)
Ltac printable_literal :=
  match goal with
  | |- Forall _ ?l => let l' := eval vm_compute in l in change l with l'
  end;
  repeat (apply Forall_cons; split; [lia|]); by apply Forall_nil.

Lemma hex_digit_printable d : d < 16 → 32 ≤ hex_digit d ≤ 126.
Proof. unfold hex_digit. case_match; lia. Qed.

Lemma hex4_printable n : Forall (λ c, 32 ≤ c ≤ 126) (hex4 n).
Proof.
  unfold hex4. repeat (apply Forall_cons; split); try (by apply Forall_nil);
    apply hex_digit_printable, N.mod_lt; lia.
Qed.

Lemma escape_char_printable c : Forall (λ c, 32 ≤ c ≤ 126) (escape_char c).
Proof.
  unfold escape_char.
  repeat (destruct (_ =? _); [printable_literal|]).
  destruct (_ && _) eqn:E.
  { apply andb_true_iff in E as [?%N.leb_le ?%N.leb_le]. by apply Forall_singleton. }
  destruct (_ <? _); cbv zeta; rewrite !Forall_app;
    repeat split; first [apply hex4_printable | printable_literal].
Qed.

Lemma encode_basestring_ascii_printable s :
  Forall (λ c, 32 ≤ c ≤ 126) (encode_basestring_ascii s).
Proof.
  unfold encode_basestring_ascii.
  apply Forall_cons; split; [lia|]. apply Forall_app. split.
  - induction s as [|c s IH]; [done|]. simpl. apply Forall_app.
    split; [apply escape_char_printable | done].
  - apply Forall_singleton. lia.
Qed.

Lemma digits_printable fuel n acc :
  Forall (λ c, 32 ≤ c ≤ 126) acc → Forall (λ c, 32 ≤ c ≤ 126) (digits fuel n acc).
Proof.
  revert n acc. induction fuel as [|fuel IH]; intros n acc Hacc; [done|].
  simpl.
  assert (Forall (λ c, 32 ≤ c ≤ 126) (48 + n `mod` 10 :: acc)) as H.
  { apply Forall_cons; split; [|done].
    pose proof (N.mod_lt n 10 ltac:(done)) as Hm.
    revert Hm. generalize (n `mod` 10). lia. }
  case_match; [done | by apply IH].
Qed.

Lemma repr_int_printable z : Forall (λ c, 32 ≤ c ≤ 126) (repr_int z).
Proof.
  destruct z; unfold repr_int, repr_nat;
    [| |apply Forall_cons; split; [lia|]]; by apply digits_printable.
Qed.

Lemma join_printable sep parts :
  Forall (λ c, 32 ≤ c ≤ 126) sep →
  Forall (Forall (λ c, 32 ≤ c ≤ 126)) parts →
  Forall (λ c, 32 ≤ c ≤ 126) (join sep parts).
Proof.
  intros Hsep. induction 1 as [|p ps Hp Hps IH]; [done|].
  destruct ps as [|q ps]; [done|].
  rewrite join_cons_cons, !Forall_app. auto.
Qed.

Lemma float_literal_printable l :
  float_literal l = true → Forall (λ c, 32 ≤ c ≤ 126) l.
Proof.
  intros (sg & ip & fr & ex & -> & Esg & Eip & Efr & Eex & _)%float_literal_parts.
  assert (∀ ds, Forall (λ c, is_digit c = true) ds → Forall (λ c, 32 ≤ c ≤ 126) ds)
    as Hdigits.
  { intros ds Hds. eapply Forall_impl; [exact Hds|]. intros c Hc%is_digit_spec. lia. }
  apply number_sign_cases in Esg.
  apply number_int_spec in Eip as [_ (d & ds & -> & Hd & Hds)].
  apply number_frac_spec in Efr as [_ Hfr].
  apply number_exp_spec in Eex as [_ Hex].
  rewrite !Forall_app. repeat split.
  - destruct Esg as [-> | ->]; [done|]. apply Forall_singleton. lia.
  - apply Hdigits. by constructor.
  - destruct Hfr as [-> | (fs & -> & Hfs)]; [done|].
    apply Forall_cons. split; [lia | by apply Hdigits].
  - destruct Hex as [-> | (e & sg' & es & -> & He & Hsg & Hes)]; [done|].
    apply Forall_cons. split; [destruct He as [-> | ->]; lia|].
    apply Forall_app. split; [|by apply Hdigits].
    destruct Hsg as [-> | [-> | ->]]; [done | |]; apply Forall_singleton; lia.
Qed.

Lemma dumps_printable v : well_formed v → Forall (λ c, 32 ≤ c ≤ 126) (dumps v).
Proof.
  assert (Forall (λ c, 32 ≤ c ≤ 126) (lit ", ")) as Hsep by printable_literal.
  induction v as [|b|n|l|s|l IH|m IH] using json_ind; intros Hwf.
  - printable_literal.
  - destruct b; printable_literal.
  - apply repr_int_printable.
  - by apply float_literal_printable.
  - apply encode_basestring_ascii_printable.
  - apply well_formed_list in Hwf. cbn [dumps]. rewrite !Forall_app.
    split; [printable_literal|]. split; [|printable_literal].
    apply join_printable; [done|]. apply Forall_fmap, Forall_forall.
    intros x Hx. rewrite Forall_forall in IH, Hwf. cbn. auto.
  - apply well_formed_dict in Hwf as [_ Hwf]. cbn [dumps]. rewrite !Forall_app.
    split; [printable_literal|]. split; [|printable_literal].
    apply join_printable; [done|]. apply Forall_fmap, Forall_forall.
    intros kv Hkv. rewrite Forall_forall in IH, Hwf. unfold compose. cbv beta.
    rewrite !Forall_app.
    split; [apply encode_basestring_ascii_printable|].
    split; [printable_literal|].
    apply IH; [done|]. by apply Hwf.
Qed.

(** ** The bound on the recursion of the decoder *)

(** No scanner returns more text than it was given. *)

Lemma skip_ws_length s : (length (skip_ws s) ≤ length s)%nat.
Proof. induction s as [|c s IH]; simpl; [lia|]. destruct (is_ws c); simpl; lia. Qed.

Lemma strip_prefix_length p s r : strip_prefix p s = Some r → (length r ≤ length s)%nat.
Proof.
  revert s. induction p as [|a p IH]; intros [|b s] H; simpl in H; try done.
  - by injection H as <-.
  - by injection H as <-.
  - destruct (a =? b); [|done]. apply IH in H. simpl. lia.
Qed.

Lemma scanstring_length_bounded n :
  ∀ s str r, (length s ≤ n)%nat → scanstring s = Some (str, r) →
             (length r ≤ length s)%nat.
Proof.
  induction n as [|n IH]; intros [|c s1] str r Hn H; try done.
  { simpl in Hn. lia. }
  simpl in Hn.
  assert (∀ t str' r', (length t ≤ length s1)%nat → scanstring t = Some (str', r') →
            (length r' ≤ length t)%nat) as IH'.
  { intros t str' r' Ht. apply IH. lia. }
  clear IH.
  cbn [scanstring] in H.
  destruct (c =? 34). { injection H as <- <-. simpl. lia. }
  destruct (c =? 92).
  2: { destruct (c <? 32); [done|].
       destruct (scanstring s1) as [[str' r']|] eqn:E; [|done].
       cbn in H. injection H as <- <-. apply IH' in E; simpl; lia. }
  destruct s1 as [|e s2]; [done|].
  destruct (e =? 117).
  2: { destruct (unescape e); [|done]. cbn [mbind option_bind] in H.
       destruct (scanstring s2) as [[str' r']|] eqn:E; [|done].
       cbn in H. injection H as <- <-. apply IH' in E; simpl; lia. }
  destruct s2 as [|h1 [|h2 [|h3 [|h4 s3]]]]; try done.
  destruct (decode_uXXXX h1 h2 h3 h4) as [uni|]; [|done].
  cbn [mbind option_bind] in H. cbv zeta in H.
  assert (∀ x, (match scanstring s3 with
                | Some (str', r') => Some (uni :: str', r')
                | None => None
                end = Some (x, r)) → (length r ≤ length s3)%nat) as Hsingle.
  { intros x Hx. destruct (scanstring s3) as [[str' r']|] eqn:E; [|done].
    injection Hx as <- <-. apply IH' in E; simpl; lia. }
  simpl in IH'. simpl.
  destruct ((0xd800 <=? uni) && (uni <=? 0xdbff)).
  2: { apply Hsingle in H. lia. }
  destruct s3 as [|b [|u s4]]; try (apply Hsingle in H; simpl in *; lia).
  destruct ((b =? 92) && (u =? 117)).
  2: { apply Hsingle in H. lia. }
  destruct s4 as [|g1 [|g2 [|g3 [|g4 s5]]]]; try done.
  destruct (decode_uXXXX g1 g2 g3 g4) as [uni2|]; [|done].
  cbn [mbind option_bind] in H.
  destruct ((0xdc00 <=? uni2) && (uni2 <=? 0xdfff)).
  2: { apply Hsingle in H. lia. }
  destruct (scanstring s5) as [[str' r']|] eqn:E; [|done].
  injection H as <- <-. apply IH' in E; simpl in *; lia.
Qed.

Lemma scanstring_length s str r :
  scanstring s = Some (str, r) → (length r ≤ length s)%nat.
Proof. by apply (scanstring_length_bounded (length s)). Qed.

Lemma match_number_length py s v r :
  match_number py s = Ok (v, r) → (length r ≤ length s)%nat.
Proof.
  unfold match_number. intros H.
  destruct (number_sign s) as [sg s1] eqn:Esg.
  destruct (number_int s1) as [[ip r1]|] eqn:Eip; [|done].
  destruct (number_frac r1) as [fr r2] eqn:Efr.
  destruct (number_exp r2) as [ex r3] eqn:Eex.
  apply number_sign_spec in Esg as ->.
  apply number_int_spec in Eip as [-> _].
  apply number_frac_spec in Efr as [-> _].
  apply number_exp_spec in Eex as [-> _].
  assert (r = r3) as ->.
  { destruct fr, ex; try by injection H as <- <-.
    destruct (exceeds_int_limit _ _); [done|]. by injection H as <- <-. }
  rewrite !length_app. lia.
Qed.

Lemma scan_length py f :
  (∀ depth s v r, scan_once py depth f s = Ok (v, r) → (length r ≤ length s)%nat)
  ∧ (∀ depth s ps r, scan_pairs py depth f s = Ok (ps, r) → (length r ≤ length s)%nat)
  ∧ (∀ depth s vs r, scan_items py depth f s = Ok (vs, r) → (length r ≤ length s)%nat).
Proof.
  induction f as [|f (IHo & IHp & IHi)]; [done|].
  split; [|split].
  - intros depth [|c s1] v r H; [done|]. cbn [scan_once] in H.
    destruct (c =? 34).
    { destruct (scanstring s1) as [[str r']|] eqn:E; [|done].
      injection H as <- <-. apply scanstring_length in E. simpl. lia. }
    destruct (c =? 123).
    { destruct depth as [|depth]; [done|].
      pose proof (skip_ws_length s1) as Lw.
      destruct (skip_ws s1) as [|c1 r0]; [done|].
      destruct (c1 =? 125). { injection H as <- <-. simpl in *. lia. }
      destruct (scan_pairs py depth f (c1 :: r0)) as [[ps r']|] eqn:E; [|done].
      injection H as <- <-. apply IHp in E. simpl in *. lia. }
    destruct (c =? 91).
    { destruct depth as [|depth]; [done|].
      pose proof (skip_ws_length s1) as Lw.
      destruct (skip_ws s1) as [|c1 r0]; [done|].
      destruct (c1 =? 93). { injection H as <- <-. simpl in *. lia. }
      destruct (scan_items py depth f (c1 :: r0)) as [[vs r']|] eqn:E; [|done].
      injection H as <- <-. apply IHi in E. simpl in *. lia. }
    repeat (destruct (strip_prefix _ (c :: s1)) as [r'|] eqn:E;
            [injection H as <- <-; by apply strip_prefix_length in E|]; clear E).
    by apply match_number_length in H.
  - intros depth [|q s1] ps r H; [done|]. cbn [scan_pairs] in H.
    destruct (q =? 34); [|done].
    destruct (scanstring s1) as [[key s2]|] eqn:Ek; [|done].
    apply scanstring_length in Ek. cbn [of_option mbind outcome_bind] in H.
    pose proof (skip_ws_length s2) as Lw2.
    destruct (skip_ws s2) as [|colon s3]; [done|].
    destruct (colon =? 58); [|done].
    pose proof (skip_ws_length s3) as Lw3.
    destruct (scan_once py depth f (skip_ws s3)) as [[v s4]|] eqn:Ev; [|done].
    apply IHo in Ev. cbn [mbind outcome_bind] in H.
    pose proof (skip_ws_length s4) as Lw4.
    destruct (skip_ws s4) as [|d s5]; [done|].
    destruct (d =? 125). { injection H as <- <-. simpl in *. lia. }
    destruct (d =? 44); [|done].
    pose proof (skip_ws_length s5) as Lw5.
    destruct (scan_pairs py depth f (skip_ws s5)) as [[ps' s6]|] eqn:Ep; [|done].
    injection H as <- <-. apply IHp in Ep. simpl in *. lia.
  - intros depth s vs r H. cbn [scan_items] in H.
    destruct (scan_once py depth f s) as [[v s1]|] eqn:Ev; [|done].
    apply IHo in Ev. cbn [mbind outcome_bind] in H.
    pose proof (skip_ws_length s1) as Lw1.
    destruct (skip_ws s1) as [|d s2]; [done|].
    destruct (d =? 93). { injection H as <- <-. simpl in *. lia. }
    destruct (d =? 44); [|done].
    pose proof (skip_ws_length s2) as Lw2.
    destruct (scan_items py depth f (skip_ws s2)) as [[vs' s3]|] eqn:Ei; [|done].
    injection H as <- <-. apply IHi in Ei. simpl in *. lia.
Qed.

(** Fuel beyond twice the length of the text changes nothing, whatever the
    scanners return or raise. *)
Lemma scan_fuel py f1 :
  (∀ depth f2 s, (2 * length s < f1)%nat → (2 * length s < f2)%nat →
     scan_once py depth f1 s = scan_once py depth f2 s)
  ∧ (∀ depth f2 s, (2 * length s + 1 < f1)%nat → (2 * length s + 1 < f2)%nat →
       scan_pairs py depth f1 s = scan_pairs py depth f2 s)
  ∧ (∀ depth f2 s, (2 * length s + 1 < f1)%nat → (2 * length s + 1 < f2)%nat →
       scan_items py depth f1 s = scan_items py depth f2 s).
Proof.
  induction f1 as [|f1 (IHo & IHp & IHi)]; [split; [|split]; intros; lia|].
  split; [|split].
  - intros depth [|f2] [|c s1] H1 H2; try (simpl in *; lia); [done|].
    cbn [scan_once].
    destruct (c =? 34); [done|].
    destruct (c =? 123).
    { destruct depth as [|depth]; [done|].
      pose proof (skip_ws_length s1) as Lw.
      destruct (skip_ws s1) as [|c1 r0]; [done|].
      destruct (c1 =? 125); [done|].
      rewrite (IHp depth f2 (c1 :: r0)); [done | |]; simpl in *; lia. }
    destruct (c =? 91).
    { destruct depth as [|depth]; [done|].
      pose proof (skip_ws_length s1) as Lw.
      destruct (skip_ws s1) as [|c1 r0]; [done|].
      destruct (c1 =? 93); [done|].
      rewrite (IHi depth f2 (c1 :: r0)); [done | |]; simpl in *; lia. }
    done.
  - intros depth [|f2] [|q s1] H1 H2; try (simpl in *; lia); [done|].
    cbn [scan_pairs].
    destruct (q =? 34); [|done].
    destruct (scanstring s1) as [[key s2]|] eqn:Ek; [|done].
    apply scanstring_length in Ek. cbn [of_option mbind outcome_bind].
    pose proof (skip_ws_length s2) as Lw2.
    destruct (skip_ws s2) as [|colon s3]; [done|].
    destruct (colon =? 58); [|done].
    pose proof (skip_ws_length s3) as Lw3.
    rewrite (IHo depth f2 (skip_ws s3)) by (simpl in *; lia).
    destruct (scan_once py depth f2 (skip_ws s3)) as [[v s4]|] eqn:Ev; [|done].
    apply (proj1 (scan_length py f2)) in Ev. cbn [mbind outcome_bind].
    pose proof (skip_ws_length s4) as Lw4.
    destruct (skip_ws s4) as [|d s5]; [done|].
    destruct (d =? 125); [done|].
    destruct (d =? 44); [|done].
    pose proof (skip_ws_length s5) as Lw5.
    rewrite (IHp depth f2 (skip_ws s5)) by (simpl in *; lia). done.
  - intros depth [|f2] s H1 H2; try (simpl in *; lia).
    cbn [scan_items].
    rewrite (IHo depth f2 s) by (simpl in *; lia).
    destruct (scan_once py depth f2 s) as [[v s1]|] eqn:Ev; [|done].
    apply (proj1 (scan_length py f2)) in Ev. cbn [mbind outcome_bind].
    pose proof (skip_ws_length s1) as Lw1.
    destruct (skip_ws s1) as [|d s2]; [done|].
    destruct (d =? 93); [done|].
    destruct (d =? 44); [|done].
    pose proof (skip_ws_length s2) as Lw2.
    rewrite (IHi depth f2 (skip_ws s2)) by (simpl in *; lia). done.
Qed.

Lemma loads_skip_ws py ws s :
  Forall (λ c, is_ws c = true) ws → loads py (ws ++ s) = loads py s.
Proof.
  intros Hws. unfold loads. rewrite skip_ws_blank by done.
  pose proof (skip_ws_length s).
  rewrite (proj1 (scan_fuel py (S (2 * length (ws ++ s)))) _ (S (2 * length s))); [done | |].
  - rewrite length_app. lia.
  - lia.
Qed.

(** ** A text that starts with no value *)

Lemma strip_prefix_other_head a p c s : a ≠ c → strip_prefix (a :: p) (c :: s) = None.
Proof. intros H. simpl. by apply N.eqb_neq in H as ->. Qed.

Lemma loads_not_starts_json py s c rest :
  skip_ws s = c :: rest → starts_json c = false → loads py s = Raise DecodeError.
Proof.
  intros Hs Hc. unfold starts_json in Hc.
  rewrite !orb_false_iff, !N.eqb_neq in Hc.
  destruct Hc as (((((((((H34 & H123) & H91) & H110) & H116) & H102) & H78) & H73) & H45) & Hd).
  unfold loads. rewrite Hs. cbn [scan_once].
  apply N.eqb_neq in H34 as E34; apply N.eqb_neq in H123 as E123.
  apply N.eqb_neq in H91 as E91. rewrite E34, E123, E91.
  change (lit "null") with (110 :: lit "ull").
  change (lit "true") with (116 :: lit "rue").
  change (lit "false") with (102 :: lit "alse").
  change (lit "NaN") with (78 :: lit "aN").
  change (lit "Infinity") with (73 :: lit "nfinity").
  change (lit "-Infinity") with (45 :: lit "Infinity").
  rewrite !strip_prefix_other_head by done.
  unfold match_number, number_sign. apply N.eqb_neq in H45 as ->.
  unfold number_int.
  assert ((c =? 48) = false) as ->.
  { apply N.eqb_neq. intros ->. done. }
  by rewrite Hd.
Qed.

(** ** No mapping holds a key twice *)

Lemma keys_unique_list l : keys_unique (JArr l) ↔ Forall keys_unique l.
Proof.
  simpl. induction l as [|x l IH]; simpl.
  - split; [constructor | done].
  - rewrite Forall_cons, IH. tauto.
Qed.

Lemma keys_unique_dict m :
  keys_unique (JObj m) ↔ NoDup m.*1 ∧ Forall (λ kv, keys_unique kv.2) m.
Proof.
  simpl. apply and_iff_compat_l. induction m as [|kv m IH]; simpl.
  - split; [constructor | done].
  - rewrite Forall_cons, IH. tauto.
Qed.

Lemma dict_set_keys k v m :
  (dict_set k v m).*1 = if decide (k ∈ m.*1) then m.*1 else m.*1 ++ [k].
Proof.
  induction m as [|[k' v'] m IH].
  - destruct (decide (k ∈ ([] : list (list N * json)).*1)) as [H|H]; [|done].
    by apply elem_of_nil in H.
  - cbn [dict_set]. rewrite fmap_cons. cbn [fst].
    destruct (decide (k = k')) as [->|Hne].
    + destruct (decide (k' ∈ k' :: m.*1)) as [H|H]; [done|].
      rewrite elem_of_cons in H. tauto.
    + rewrite fmap_cons, IH. cbn [fst].
      destruct (decide (k ∈ m.*1)) as [Hin|Hnin];
        destruct (decide (k ∈ k' :: m.*1)) as [H|H]; try done;
        rewrite elem_of_cons in H; tauto.
Qed.

Lemma dict_set_NoDup k v m : NoDup m.*1 → NoDup (dict_set k v m).*1.
Proof.
  intros H. rewrite dict_set_keys. destruct (decide (k ∈ m.*1)); [done|].
  apply NoDup_app. split; [done|]. split; [|apply NoDup_singleton].
  intros x Hx ->%list_elem_of_singleton. done.
Qed.

Lemma dict_set_Forall (Q : list N * json → Prop) k v m :
  Q (k, v) → Forall Q m → Forall Q (dict_set k v m).
Proof.
  intros Hkv. induction 1 as [|[k' v'] m Hx Hm IH]; simpl.
  - by apply Forall_singleton.
  - destruct (decide (k = k')); apply Forall_cons; auto.
Qed.

Lemma dict_of_pairs_keys_unique ps :
  Forall (λ kv, keys_unique kv.2) ps → keys_unique (JObj (dict_of_pairs ps)).
Proof.
  intros Hps. apply keys_unique_dict. unfold dict_of_pairs.
  assert (NoDup ([] : list (list N * json)).*1
          ∧ Forall (λ kv : list N * json, keys_unique kv.2) []) as H.
  { split; [apply NoDup_nil_2 | apply Forall_nil_2]. }
  revert H. generalize ([] : list (list N * json)).
  induction Hps as [|[k v] ps Hkv Hps IH]; intros m [Hnd Hm]; [done|].
  simpl. apply IH. split; [by apply dict_set_NoDup | by apply dict_set_Forall].
Qed.

Lemma match_number_keys_unique py s v r : match_number py s = Ok (v, r) → keys_unique v.
Proof.
  unfold match_number. intros H.
  destruct (number_sign s) as [sg s1].
  destruct (number_int s1) as [[ip r1]|]; [|done].
  destruct (number_frac r1) as [fr r2].
  destruct (number_exp r2) as [ex r3].
  destruct fr, ex; try by injection H as <- <-.
  destruct (exceeds_int_limit _ _); [done|]. by injection H as <- <-.
Qed.

Lemma scan_keys_unique py f :
  (∀ depth s v r, scan_once py depth f s = Ok (v, r) → keys_unique v)
  ∧ (∀ depth s ps r, scan_pairs py depth f s = Ok (ps, r) →
       Forall (λ kv, keys_unique kv.2) ps)
  ∧ (∀ depth s vs r, scan_items py depth f s = Ok (vs, r) → Forall keys_unique vs).
Proof.
  induction f as [|f (IHo & IHp & IHi)]; [done|].
  split; [|split].
  - intros depth [|c s1] v r H; [done|]. cbn [scan_once] in H.
    destruct (c =? 34).
    { destruct (scanstring s1) as [[str r']|]; [|done]. by injection H as <- <-. }
    destruct (c =? 123).
    { destruct depth as [|depth]; [done|].
      destruct (skip_ws s1) as [|c1 r0]; [done|].
      destruct (c1 =? 125).
      { injection H as <- <-. apply keys_unique_dict. split; [apply NoDup_nil_2 | done]. }
      destruct (scan_pairs py depth f (c1 :: r0)) as [[ps r']|] eqn:E; [|done].
      injection H as <- <-. apply dict_of_pairs_keys_unique. by eapply IHp. }
    destruct (c =? 91).
    { destruct depth as [|depth]; [done|].
      destruct (skip_ws s1) as [|c1 r0]; [done|].
      destruct (c1 =? 93). { by injection H as <- <-. }
      destruct (scan_items py depth f (c1 :: r0)) as [[vs r']|] eqn:E; [|done].
      injection H as <- <-. apply keys_unique_list. by eapply IHi. }
    repeat (destruct (strip_prefix _ (c :: s1)) as [r'|];
            [by injection H as <- <-|]).
    by eapply match_number_keys_unique.
  - intros depth [|q s1] ps r H; [done|]. cbn [scan_pairs] in H.
    destruct (q =? 34); [|done].
    destruct (scanstring s1) as [[key s2]|]; [|done].
    cbn [of_option mbind outcome_bind] in H.
    destruct (skip_ws s2) as [|colon s3]; [done|].
    destruct (colon =? 58); [|done].
    destruct (scan_once py depth f (skip_ws s3)) as [[v s4]|] eqn:Ev; [|done].
    apply IHo in Ev. cbn [mbind outcome_bind] in H.
    destruct (skip_ws s4) as [|d s5]; [done|].
    destruct (d =? 125).
    { injection H as <- <-. by apply Forall_singleton. }
    destruct (d =? 44); [|done].
    destruct (scan_pairs py depth f (skip_ws s5)) as [[ps' s6]|] eqn:Ep; [|done].
    injection H as <- <-. apply IHp in Ep. by apply Forall_cons.
  - intros depth s vs r H. cbn [scan_items] in H.
    destruct (scan_once py depth f s) as [[v s1]|] eqn:Ev; [|done].
    apply IHo in Ev. cbn [mbind outcome_bind] in H.
    destruct (skip_ws s1) as [|d s2]; [done|].
    destruct (d =? 93).
    { injection H as <- <-. by apply Forall_singleton. }
    destruct (d =? 44); [|done].
    destruct (scan_items py depth f (skip_ws s2)) as [[vs' s3]|] eqn:Ei; [|done].
    injection H as <- <-. apply IHi in Ei. by apply Forall_cons.
Qed.

Lemma loads_keys_unique py s v : loads py s = Ok v → keys_unique v.
Proof.
  unfold loads. intros H.
  destruct (scan_once _ _ _ (skip_ws s)) as [[v' r]|] eqn:E; [|done].
  cbn [mbind outcome_bind] in H. destruct (skip_ws r); [|done]. injection H as <-.
  by eapply (proj1 (scan_keys_unique _ _)).
Qed.

(** ** What the encoder raises *)

Lemma first_error_None {A} (f : A → option error) (l : list A) :
  first_error f l = None ↔ Forall (λ x, f x = None) l.
Proof.
  induction l as [|x l IH]; simpl.
  - split; [constructor | done].
  - rewrite Forall_cons, <- IH. destruct (f x); [split; [done | by intros [? _]] | tauto].
Qed.

(** The encoder writes every well-formed value that is within its depth and
    the limit of the integers. *)
Lemma encode_error_None py depth v :
  well_formed v → (nesting v ≤ depth)%nat →
  exceeds_int_limit py (max_int_digits v) = false →
  encode_error py depth v = None.
Proof.
  revert depth. induction v as [|b|n|l|s|l IH|m IH] using json_ind;
    intros depth Hwf Hdepth Hlim.
  - by destruct depth.
  - by destruct depth.
  - destruct depth; simpl in *; by rewrite Hlim.
  - assert (nonfinite l = false) as Hfin.
    { simpl in Hwf. unfold nonfinite.
      rewrite !orb_false_iff, !bool_decide_eq_false.
      repeat split; intros ->; by vm_compute in Hwf. }
    destruct depth; simpl; by rewrite Hfin.
  - by destruct depth.
  - apply well_formed_list in Hwf.
    destruct depth as [|depth]; [simpl in Hdepth; lia|].
    cbn [nesting] in Hdepth. apply le_S_n, foldr_max_le in Hdepth.
    cbn [max_int_digits] in Hlim. apply foldr_max_limit in Hlim.
    cbn [encode_error]. apply first_error_None, Forall_forall. intros x Hx.
    rewrite Forall_forall in IH, Hwf, Hdepth, Hlim. by apply IH; auto.
  - apply well_formed_dict in Hwf as [_ Hwf].
    destruct depth as [|depth]; [simpl in Hdepth; lia|].
    cbn [nesting] in Hdepth.
    apply le_S_n, (foldr_max_le (λ kv : list N * json, nesting kv.2)) in Hdepth.
    cbn [max_int_digits] in Hlim.
    apply (foldr_max_limit py (λ kv : list N * json, max_int_digits kv.2)) in Hlim.
    cbn [encode_error]. apply first_error_None, Forall_forall. intros kv Hkv.
    rewrite Forall_forall in IH, Hwf, Hdepth, Hlim.
    destruct (Hwf kv Hkv) as [_ Hv]. by apply IH; auto.
Qed.

(** What the encoder writes has its integers within the limit. *)
Lemma encode_error_limit py depth v :
  encode_error py depth v = None → exceeds_int_limit py (max_int_digits v) = false.
Proof.
  assert (exceeds_int_limit py 0 = false) as H0.
  { unfold exceeds_int_limit. rewrite andb_false_iff, !Nat.ltb_ge. lia. }
  assert (∀ {A} (f : A → nat) (l : list A),
            Forall (λ x, exceeds_int_limit py (f x) = false) l →
            exceeds_int_limit py (foldr (λ x n, Nat.max (f x) n) O l) = false) as Hmax.
  { intros A f l Hl. induction Hl as [|x l Hx Hl IHl]; [done|]. simpl.
    destruct (Nat.max_spec (f x) (foldr (λ x n, Nat.max (f x) n) O l)) as [[_ ->]|[_ ->]];
      done. }
  revert depth. induction v as [|b|n|l|s|l IH|m IH] using json_ind; intros depth H;
    try exact H0.
  - destruct depth; simpl in *; by destruct (exceeds_int_limit py (int_digits n)).
  - destruct depth as [|depth]; [done|]. cbn [encode_error] in H.
    apply first_error_None in H. cbn [max_int_digits]. apply Hmax.
    rewrite Forall_forall in IH, H |- *. intros x Hx. by apply (IH x Hx depth), H.
  - destruct depth as [|depth]; [done|]. cbn [encode_error] in H.
    apply first_error_None in H. cbn [max_int_digits].
    apply (Hmax _ (λ kv : list N * json, max_int_digits kv.2)).
    rewrite Forall_forall in IH, H |- *. intros kv Hkv. by apply (IH kv Hkv depth), H.
Qed.

(** ** The exceptions of the codec and of [print] *)

Lemma first_error_Some {A} (f : A → option error) (l : list A) e :
  first_error f l = Some e → ∃ x, x ∈ l ∧ f x = Some e.
Proof.
  induction l as [|x l IH]; simpl; [done|].
  destruct (f x) as [e'|] eqn:E.
  - intros [= ->]. exists x. split; [by left | done].
  - intros (y & Hy & Hfy)%IH. exists y. split; [by right | done].
Qed.

Lemma encode_error_kinds py depth v e :
  encode_error py depth v = Some e → e = InvalidJSONError ∨ e = RecursionError.
Proof.
  revert depth. induction v as [|b|n|l|s|l IH|m IH] using json_ind; intros depth H.
  - by destruct depth.
  - by destruct depth.
  - destruct depth; simpl in H; destruct (exceeds_int_limit _ _); try done;
      injection H as <-; by left.
  - destruct depth; simpl in H; destruct (nonfinite _); try done;
      injection H as <-; by left.
  - by destruct depth.
  - destruct depth as [|depth]; simpl in H; [injection H as <-; by right|].
    apply first_error_Some in H as (x & Hx & Hfx).
    rewrite Forall_forall in IH. by apply (IH x Hx depth).
  - destruct depth as [|depth]; simpl in H; [injection H as <-; by right|].
    apply first_error_Some in H as (kv & Hkv & Hfx).
    rewrite Forall_forall in IH. by apply (IH kv Hkv depth).
Qed.

Lemma repr_error_kinds py depth v e :
  repr_error py depth v = Some e → e = ValueError ∨ e = RecursionError.
Proof.
  revert v. induction depth as [|depth IH]; intros v H; simpl in H.
  { injection H as <-. by right. }
  destruct v as [|b|n|l|s|l|m]; try done.
  - destruct (exceeds_int_limit _ _); [|done]. injection H as <-. by left.
  - apply first_error_Some in H as (x & _ & Hx). by apply (IH x).
  - apply first_error_Some in H as (kv & _ & Hx). by apply (IH kv.2).
Qed.

Lemma print_error_kinds py v e :
  print_error py v = Some e →
  e = UnicodeEncodeError ∨ e = ValueError ∨ e = RecursionError.
Proof.
  destruct v as [|b|n|l|s|l|m]; simpl; try done.
  - destruct (exceeds_int_limit _ _); [|done]. intros [= <-]. auto.
  - destruct (has_surrogate s); [|done]. intros [= <-]. auto.
  - intros H%repr_error_kinds. tauto.
  - intros H%repr_error_kinds. tauto.
Qed.

Lemma match_number_raises py s e :
  match_number py s = Raise e → e = DecodeError ∨ e = ValueError.
Proof.
  unfold match_number.
  destruct (number_sign s) as [sg s1].
  destruct (number_int s1) as [[ip r1]|]; [|intros [= <-]; by left].
  destruct (number_frac r1) as [fr r2].
  destruct (number_exp r2) as [ex r3].
  destruct fr, ex; try done.
  destruct (exceeds_int_limit _ _); [|done]. intros [= <-]. by right.
Qed.

(** What the decoder raises: [JSONDecodeError], [RecursionError] or
    [ValueError]. *)
Lemma scan_raises py f :
  (∀ depth s e, scan_once py depth f s = Raise e →
     e = DecodeError ∨ e = RecursionError ∨ e = ValueError)
  ∧ (∀ depth s e, scan_pairs py depth f s = Raise e →
       e = DecodeError ∨ e = RecursionError ∨ e = ValueError)
  ∧ (∀ depth s e, scan_items py depth f s = Raise e →
       e = DecodeError ∨ e = RecursionError ∨ e = ValueError).
Proof.
  induction f as [|f (IHo & IHp & IHi)].
  { split; [|split]; intros depth s e [= <-]; by left. }
  split; [|split].
  - intros depth [|c s1] e H; [injection H as <-; by left|]. cbn [scan_once] in H.
    destruct (c =? 34).
    { destruct (scanstring s1) as [[str r']|]; [done|]. injection H as <-. by left. }
    destruct (c =? 123).
    { destruct depth as [|depth]; [injection H as <-; auto|].
      destruct (skip_ws s1) as [|c1 r0]; [injection H as <-; by left|].
      destruct (c1 =? 125); [done|].
      destruct (scan_pairs py depth f (c1 :: r0)) as [[ps r']|e'] eqn:E; [done|].
      injection H as <-. by eapply IHp. }
    destruct (c =? 91).
    { destruct depth as [|depth]; [injection H as <-; auto|].
      destruct (skip_ws s1) as [|c1 r0]; [injection H as <-; by left|].
      destruct (c1 =? 93); [done|].
      destruct (scan_items py depth f (c1 :: r0)) as [[vs r']|e'] eqn:E; [done|].
      injection H as <-. by eapply IHi. }
    repeat (destruct (strip_prefix _ (c :: s1)) as [r'|]; [done|]).
    apply match_number_raises in H. tauto.
  - intros depth [|q s1] e H; [injection H as <-; by left|]. cbn [scan_pairs] in H.
    destruct (q =? 34); [|injection H as <-; by left].
    destruct (scanstring s1) as [[key s2]|]; [|injection H as <-; by left].
    cbn [of_option mbind outcome_bind] in H.
    destruct (skip_ws s2) as [|colon s3]; [injection H as <-; by left|].
    destruct (colon =? 58); [|injection H as <-; by left].
    destruct (scan_once py depth f (skip_ws s3)) as [[v s4]|e'] eqn:Ev;
      [|injection H as <-; by eapply IHo].
    cbn [mbind outcome_bind] in H.
    destruct (skip_ws s4) as [|d s5]; [injection H as <-; by left|].
    destruct (d =? 125); [done|].
    destruct (d =? 44); [|injection H as <-; by left].
    destruct (scan_pairs py depth f (skip_ws s5)) as [[ps' s6]|e'] eqn:Ep; [done|].
    injection H as <-. by eapply IHp.
  - intros depth s e H. cbn [scan_items] in H.
    destruct (scan_once py depth f s) as [[v s1]|e'] eqn:Ev;
      [|injection H as <-; by eapply IHo].
    cbn [mbind outcome_bind] in H.
    destruct (skip_ws s1) as [|d s2]; [injection H as <-; by left|].
    destruct (d =? 93); [done|].
    destruct (d =? 44); [|injection H as <-; by left].
    destruct (scan_items py depth f (skip_ws s2)) as [[vs' s3]|e'] eqn:Ei; [done|].
    injection H as <-. by eapply IHi.
Qed.

Lemma loads_raises py s e :
  loads py s = Raise e → e = DecodeError ∨ e = RecursionError ∨ e = ValueError.
Proof.
  unfold loads.
  destruct (scan_once _ _ _ (skip_ws s)) as [[v r]|e'] eqn:E.
  - cbn [mbind outcome_bind]. destruct (skip_ws r); [done|]. intros [= <-]. by left.
  - intros [= <-]. by eapply (proj1 (scan_raises _ _)).
Qed.

(** ** Bodies beyond the limits *)

(** More open brackets than the decoder has depth for raise
    [RecursionError], whatever comes after them. *)
Lemma scan_once_too_deep py depth : ∀ fuel n rest,
  (depth < n)%nat → (2 * depth < fuel)%nat →
  scan_once py depth fuel (replicate n 91 ++ rest) = Raise RecursionError.
Proof.
  induction depth as [|depth IH]; intros [|fuel] [|n] rest Hn Hf; try lia.
  - reflexivity.
  - destruct n as [|n]; [lia|].
    change (replicate (S (S n)) 91 ++ rest)
      with (91 :: 91 :: replicate n 91 ++ rest).
    rewrite scan_once_array.
    change (skip_ws (91 :: replicate n 91 ++ rest)) with (91 :: replicate n 91 ++ rest).
    cbv iota. change (91 =? 93) with false. cbv iota.
    destruct fuel as [|fuel]; [lia|]. cbn [scan_items].
    change (91 :: replicate n 91 ++ rest) with (replicate (S n) 91 ++ rest).
    rewrite IH by lia. done.
Qed.

Lemma loads_too_deep py n rest :
  (decoder_depth py < n)%nat → loads py (replicate n 91 ++ rest) = Raise RecursionError.
Proof.
  intros Hn. unfold loads.
  destruct n as [|n]; [lia|].
  change (skip_ws (replicate (S n) 91 ++ rest)) with (replicate (S n) 91 ++ rest).
  rewrite scan_once_too_deep; [done | done |].
  rewrite length_app, length_replicate. lia.
Qed.

(** An integer of more digits than the limit raises [ValueError]. *)
Lemma loads_too_many_digits py d ds :
  is_digit d = true → d ≠ 48 → Forall (λ c, is_digit c = true) ds →
  exceeds_int_limit py (S (length ds)) = true →
  loads py (d :: ds) = Raise ValueError.
Proof.
  intros Hd Hnz Hds Hlim. unfold loads.
  rewrite skip_ws_starts_value by by apply starts_value_digit.
  rewrite scan_once_digit by done.
  unfold match_number, number_sign, number_int.
  assert ((d =? 45) = false) as ->.
  { apply N.eqb_neq. apply is_digit_spec in Hd. lia. }
  rewrite (proj2 (N.eqb_neq d 48)), Hd by done.
  rewrite <- (app_nil_r ds), span_digits_app by done.
  cbn [number_frac number_exp length]. by rewrite Hlim.
Qed.

(** A text of digits within the limit reads as the integer of the digits. *)
Lemma loads_digits py d ds :
  is_digit d = true → d ≠ 48 → Forall (λ c, is_digit c = true) ds →
  exceeds_int_limit py (S (length ds)) = false →
  loads py (d :: ds) = Ok (JInt (Z.of_N (int_of_digits (d :: ds)))).
Proof.
  intros Hd Hnz Hds Hlim. unfold loads.
  rewrite skip_ws_starts_value by by apply starts_value_digit.
  rewrite scan_once_digit by done.
  pose proof (match_number_int py false d ds [] (or_intror (conj Hd (conj Hnz Hds))) I Hlim)
    as H.
  rewrite app_nil_r in H. cbn [app] in H. rewrite H. done.
Qed.

(** ** Integers of many digits *)

Lemma int_of_digits_bound ds :
  Forall (λ c, is_digit c = true) ds → int_of_digits ds < 10 ^ N.of_nat (length ds).
Proof.
  intros H. unfold int_of_digits.
  assert (∀ a, fold_left digit_step ds a < (a + 1) * 10 ^ N.of_nat (length ds)) as G.
  { induction H as [|c ds Hc _ IH]; intros a.
    - simpl. lia.
    - cbn [fold_left length]. rewrite Nat2N.inj_succ, N.pow_succ_r'.
      specialize (IH (digit_step a c)).
      apply is_digit_spec in Hc. unfold digit_step in *. nia. }
  specialize (G 0). lia.
Qed.

(** An integer that is at least [10 ^ k] has more than [k] digits. *)
Lemma int_digits_lower z k :
  (10 ^ Z.of_nat k ≤ Z.abs z)%Z → (k < int_digits z)%nat.
Proof.
  intros H. unfold int_digits.
  assert (10 ^ N.of_nat k ≤ Z.abs_N z) as Hn.
  { apply N2Z.inj_le. rewrite N2Z.inj_pow, N2Z.inj_abs_N, nat_N_Z. done. }
  destruct (repr_nat_spec (Z.abs_N z)) as (d & ds & E & Hd & _ & Hds & Hv).
  { pose proof (N.pow_nonzero 10 (N.of_nat k)). lia. }
  rewrite E.
  pose proof (int_of_digits_bound (d :: ds) (Forall_cons_2 _ _ _ Hd Hds)) as Hb.
  rewrite Hv in Hb.
  assert (10 ^ N.of_nat k < 10 ^ N.of_nat (length (d :: ds))) as Hlt by lia.
  apply N.pow_lt_mono_r_iff in Hlt; lia.
Qed.

Lemma exceeds_int_limit_lower py z :
  (0 < int_max_str_digits py)%nat →
  (10 ^ Z.of_nat (int_max_str_digits py) ≤ Z.abs z)%Z →
  exceeds_int_limit py (int_digits z) = true.
Proof.
  intros Hpos H%int_digits_lower. unfold exceeds_int_limit.
  apply andb_true_iff. split; by apply Nat.ltb_lt.
Qed.

(** * Properties of the three calls *)

Section Calls.

Context (py : interpreter) (server : list request → request → reply).

(** What an operation does, in one equation: the exception of writing the
    body; or else one request, then the transport's failure, or what
    [json.loads] makes of the body of the response. *)
Lemma run_unfold op w :
  run py server op w =
    match prepare_error py op w with
    | Some e => (Raise e, w)
    | None =>
        match server (sent w) (request_of op w) with
        | Failure f => (Raise (TransportError f), add_sent (request_of op w) w)
        | Answer r => (loads py (text r), set_resp r (add_sent (request_of op w) w))
        end
    end.
Proof.
  destruct op; unfold run, append, scan, query, requests_post, requests_get,
    send, resp_json, request_of, prepare_error, body_of, get_world, modify, raise,
    mbind, M_bind, mret, M_ret; cbv beta.
  - destruct (atomic w) eqn:Ea;
      destruct (encode_error py (encoder_depth py) _) eqn:Ee;
      try (destruct (encoder_depth py); discriminate Ee);
      cbv beta iota; try reflexivity;
      (destruct (server _ _) as [r|f]; [destruct (loads py (text r))|]; reflexivity).
  - destruct (server _ _) as [r|f]; [destruct (loads py (text r))|]; reflexivity.
  - destruct (server _ _) as [r|f]; [destruct (loads py (text r))|]; reflexivity.
Qed.

Lemma run_sent op w :
  sent (run py server op w).2
  = sent w ++ (if prepare_error py op w is None then [request_of op w] else []).
Proof.
  rewrite run_unfold. destruct (prepare_error py op w); [by rewrite app_nil_r|].
  by destruct (server _ _).
Qed.

Lemma run_sent_prepared op w :
  prepare_error py op w = None →
  sent (run py server op w).2 = sent w ++ [request_of op w].
Proof. intros H. by rewrite run_sent, H. Qed.

Lemma run_stdout op w : stdout (run py server op w).2 = stdout w.
Proof.
  rewrite run_unfold. destruct (prepare_error py op w); [done|]. by destruct (server _ _).
Qed.

Lemma run_globals op w :
  let w' := (run py server op w).2 in
  API_URL w' = API_URL w ∧ API_KEY w' = API_KEY w ∧ atomic w' = atomic w.
Proof.
  rewrite run_unfold. destruct (prepare_error py op w); [done|]. by destruct (server _ _).
Qed.

Lemma x_api_key_of op w :
  req_headers (request_of op w) !! lit "x-api-key" = Some (API_KEY w).
Proof.
  destruct op; unfold request_of, req_headers.
  - apply lookup_insert_eq.
  - apply lookup_singleton_eq.
  - apply lookup_singleton_eq.
Qed.

(** An operation whose call is answered. *)
Lemma run_answered op w r :
  prepare_error py op w = None →
  server (sent w) (request_of op w) = Answer r →
  run py server op w = (loads py (text r), set_resp r (add_sent (request_of op w) w)).
Proof. intros Hp Hr. by rewrite run_unfold, Hp, Hr. Qed.

(** The script is the three operations in order, each followed by its
    [print]; an exception ends it there. *)
Lemma script_unfold w :
  script py server w =
    match run py server Append w with
    | (Raise e, w1) => (Raise e, w1)
    | (Ok v1, w1) =>
        match print_error py v1 with
        | Some e => (Raise e, w1)
        | None =>
            match run py server Scan (add_stdout (lit "Append result:", v1) w1) with
            | (Raise e, w2) => (Raise e, w2)
            | (Ok v2, w2) =>
                match print_error py v2 with
                | Some e => (Raise e, w2)
                | None =>
                    match run py server Query (add_stdout (lit "Scan result:", v2) w2) with
                    | (Raise e, w3) => (Raise e, w3)
                    | (Ok v3, w3) =>
                        match print_error py v3 with
                        | Some e => (Raise e, w3)
                        | None => (Ok (), add_stdout (lit "Query result:", v3) w3)
                        end
                    end
                end
            end
        end
    end.
Proof.
  unfold script, run, print, modify, raise, mbind, M_bind.
  destruct (append py server w) as [[v1|e] w1]; [|done].
  destruct (print_error py v1); [done|].
  destruct (scan py server _) as [[v2|e] w2]; [|done].
  destruct (print_error py v2); [done|].
  destruct (query py server _) as [[v3|e] w3]; [|done].
  by destruct (print_error py v3).
Qed.

End Calls.

(** ** The requests depend on the globals only *)

Lemma request_of_ext op w w' :
  API_URL w' = API_URL w → API_KEY w' = API_KEY w → atomic w' = atomic w →
  request_of op w' = request_of op w.
Proof. intros U K A. unfold request_of. by rewrite U, K, A. Qed.

Lemma prepare_error_ext py op w w' :
  atomic w' = atomic w → prepare_error py op w' = prepare_error py op w.
Proof. intros A. unfold prepare_error. by rewrite A. Qed.

Lemma request_of_run py server op op' w :
  request_of op (run py server op' w).2 = request_of op w.
Proof.
  destruct (run_globals py server op' w) as (U & K & A). by apply request_of_ext.
Qed.

Lemma prepare_error_run py server op op' w :
  prepare_error py op (run py server op' w).2 = prepare_error py op w.
Proof.
  destruct (run_globals py server op' w) as (U & K & A). by apply prepare_error_ext.
Qed.

Lemma append_run py server w : append py server w = run py server Append w.
Proof. reflexivity. Qed.

Lemma body_of_not_null js : js ≠ JNull → body_of js = Some (dumps js).
Proof. by destruct js. Qed.

(** An operation raises what writing the body, the transport or
    [json.loads] raises, and nothing else. *)
Lemma run_raises py server op w e :
  (run py server op w).1 = Raise e →
  (∃ f, e = TransportError f)
  ∨ e = InvalidJSONError ∨ e = DecodeError ∨ e = RecursionError ∨ e = ValueError.
Proof.
  rewrite run_unfold. destruct (prepare_error py op w) as [e'|] eqn:Ep.
  - intros [= <-]. destruct op; try done.
    apply encode_error_kinds in Ep as [-> | ->]; auto.
  - destruct (server _ _) as [r|f]; [|intros [= <-]; eauto].
    intros H%loads_raises. tauto.
Qed.

(** An event with an integer of 4301 digits among its arguments cannot be
    written under the default limit. *)
Lemma long_integer_event_unwritable :
  prepare_error cpython Append
    (world_with (JObj [(lit "input", JObj [(lit "args", JArr [JInt 1; JInt (10 ^ 4300)])])]))
  = Some InvalidJSONError.
Proof.
  assert (exceeds_int_limit cpython (int_digits (10 ^ 4300)) = true) as H.
  { apply exceeds_int_limit_lower; [cbn; lia|].
    rewrite Z.abs_eq by (apply Z.pow_nonneg; lia).
    change (Z.of_nat (int_max_str_digits cpython)) with 4300%Z. apply Z.le_refl. }
  remember (10 ^ 4300)%Z as z eqn:Ez.
  unfold prepare_error, world_with, atomic, cpython, encoder_depth.
  cbn [encode_error first_error foldr snd].
  change (Interpreter 4300 1000 1000 1000) with cpython.
  rewrite H. reflexivity.
Qed.

(** ** The append call *)

(** C1, as the script has it.  For every base URL, API key and event that
    [json.dumps] writes ([requests] sends no JSON body for [None], and
    raises before anything is sent for an event it cannot write), and every
    answer whose body [json.loads] reads, [append] hands the transport one
    request, a POST to [{base_url}/append] with the headers
    [x-api-key: <api_key>] and [Content-Type: application/json] and the text
    of the event for its body, and returns the value of the body of the
    answer: the body sent reads back as the event, and an answer whose body
    is the text of a value gives that value.  With the script's own globals
    and a server mocked to answer [{"status":"ok"}], the request is a POST to
    [http://localhost:8000/append] with [x-api-key: changeme] and the text of
    the event literal, and [append] returns that mapping. *)
Theorem append_posts_event_and_returns_parsed_body :
  (∀ py server w r v,
     let rq :=
       Request POST (API_URL w ++ lit "/append")
         {[ lit "x-api-key" := API_KEY w;
            lit "Content-Type" := lit "application/json" ]}
         (Some (dumps (atomic w))) in
     atomic w ≠ JNull →
     prepare_error py Append w = None →
     server (sent w) rq = Answer r →
     loads py (text r) = Ok v →
     (append py server w).1 = Ok v ∧ sent (append py server w).2 = sent w ++ [rq])
  ∧ (∀ py server w status v,
       atomic w ≠ JNull →
       prepare_error py Append w = None →
       reads py (atomic w) →
       reads py v →
       server (sent w) (request_of Append w) = Answer (Response status (dumps v)) →
       (append py server w).1 = Ok v
       ∧ ∃ rq body,
           sent (append py server w).2 = sent w ++ [rq]
           ∧ req_body rq = Some body
           ∧ loads py body = Ok (atomic w))
  ∧ (let server := mock (Response 200 (jlit "{'status':'ok'}")) in
     (append cpython server initial_world).1 = Ok (JObj [(lit "status", JStr (lit "ok"))])
     ∧ sent (append cpython server initial_world).2 =
         [Request POST (lit "http://localhost:8000/append")
            {[ lit "x-api-key" := lit "changeme";
               lit "Content-Type" := lit "application/json" ]}
            (Some
               (jlit "{'entity_type': 'function', 'intent': 'run_code', 'this': 'add', "
                ++ jlit "'did': {'actor': 'python-client', 'action': 'run_code'}, "
                ++ jlit "'input': {'args': [1, 2]}, "
                ++ jlit "'metadata': {'trace_id': 'py-demo-123e', "
                ++ jlit "'created_at': '2025-11-07T13:00:00Z'}}"))]
     ∧ loads cpython (dumps atomic_literal) = Ok atomic_literal).
Proof.
  split; [|split].
  - intros py server w r v rq Hnull Hp Hr Hv.
    change (append py server w) with (run py server Append w).
    assert (request_of Append w = rq) as Hrq.
    { unfold request_of. by rewrite body_of_not_null. }
    rewrite run_unfold, Hp, Hrq, Hr. cbn [fst snd text]. rewrite Hv. done.
  - intros py server w status v Hnull Hp Hw Hv Hr.
    change (append py server w) with (run py server Append w).
    rewrite run_unfold, Hp, Hr. cbn [fst snd text].
    split; [by apply loads_dumps|].
    exists (request_of Append w), (dumps (atomic w)).
    split; [done|]. split; [|by apply loads_dumps].
    unfold request_of. cbn [req_body]. by apply body_of_not_null.
  - by vm_compute.
Qed.

Lemma append_posts_event_and_returns_parsed_body_witness :
  (append cpython (mock (Response 201 (jlit "{'status':'ok'}"))) initial_world).1
    = Ok (JObj [(lit "status", JStr (lit "ok"))])
  ∧ sent (append cpython (mock (Response 201 (jlit "{'status':'ok'}"))) initial_world).2
    = sent initial_world
      ++ [Request POST (API_URL initial_world ++ lit "/append")
            {[ lit "x-api-key" := API_KEY initial_world;
               lit "Content-Type" := lit "application/json" ]}
            (Some (dumps (atomic initial_world)))].
Proof.
  apply (proj1 append_posts_event_and_returns_parsed_body cpython
           (mock (Response 201 (jlit "{'status':'ok'}"))) initial_world
           (Response 201 (jlit "{'status':'ok'}"))
           (JObj [(lit "status", JStr (lit "ok"))])).
  - done.
  - vm_compute. reflexivity.
  - reflexivity.
  - vm_compute. reflexivity.
Defined.

(** C1 fails as stated: for an event with a float that is not finite among
    its arguments, and for one with an integer of 4301 digits, [append]
    raises [InvalidJSONError] and nothing is sent. *)
Lemma unwritable_event_counterexample :
  (append cpython (mock (Response 200 (jlit "{'status':'ok'}")))
     (world_with (JObj [(lit "input", JObj [(lit "args", JArr [JFloat (lit "NaN")])])]))).1
    = Raise InvalidJSONError
  ∧ sent (append cpython (mock (Response 200 (jlit "{'status':'ok'}")))
            (world_with
               (JObj [(lit "input", JObj [(lit "args", JArr [JFloat (lit "NaN")])])]))).2
    = []
  ∧ (append cpython (mock (Response 200 (jlit "{'status':'ok'}")))
       (world_with
          (JObj [(lit "input", JObj [(lit "args", JArr [JInt 1; JInt (10 ^ 4300)])])]))).1
    = Raise InvalidJSONError
  ∧ sent (append cpython (mock (Response 200 (jlit "{'status':'ok'}")))
            (world_with
               (JObj [(lit "input",
                        JObj [(lit "args", JArr [JInt 1; JInt (10 ^ 4300)])])]))).2
    = [].
Proof.
  split; [by vm_compute|]. split; [by vm_compute|].
  rewrite append_run, run_unfold, long_integer_event_unwritable. done.
Qed.

(** C4, as the script has it.  For any event that is well formed and within
    the limits of the interpreter, and that [json.dumps] writes, the body of
    the request that [append] makes is JSON text that decodes to the event
    itself. *)
Theorem append_body_decodes_to_the_event :
  ∀ py server w,
    reads py (atomic w) →
    atomic w ≠ JNull →
    prepare_error py Append w = None →
    ∃ rq body,
      sent (append py server w).2 = sent w ++ [rq]
      ∧ req_body rq = Some body
      ∧ loads py body = Ok (atomic w).
Proof.
  intros py server w Hw Hnull Hp.
  exists (request_of Append w), (dumps (atomic w)).
  split; [by apply (run_sent_prepared py server Append w)|].
  split; [|by apply loads_dumps].
  unfold request_of. cbn [req_body]. by apply body_of_not_null.
Qed.

Lemma append_body_decodes_to_the_event_witness :
  ∃ rq body,
    sent (append cpython (mock (Response 200 (jlit "{'status':'ok'}")))
            (world_with
               (JObj [(lit "input", JObj [(lit "args", JArr [JInt 1; JFloat (lit "2.5e-07")])]);
                      (lit "this", JStr [233; 0x1f600])]))).2
      = sent (world_with
                (JObj [(lit "input",
                         JObj [(lit "args", JArr [JInt 1; JFloat (lit "2.5e-07")])]);
                       (lit "this", JStr [233; 0x1f600])])) ++ [rq]
    ∧ req_body rq = Some body
    ∧ loads cpython body
      = Ok (atomic
              (world_with
                 (JObj [(lit "input",
                          JObj [(lit "args", JArr [JInt 1; JFloat (lit "2.5e-07")])]);
                        (lit "this", JStr [233; 0x1f600])]))).
Proof.
  apply (append_body_decodes_to_the_event cpython
           (mock (Response 200 (jlit "{'status':'ok'}")))
           (world_with
              (JObj [(lit "input", JObj [(lit "args", JArr [JInt 1; JFloat (lit "2.5e-07")])]);
                     (lit "this", JStr [233; 0x1f600])]))).
  - apply readsb_sound. vm_compute. reflexivity.
  - done.
  - vm_compute. reflexivity.
Defined.

(** C4 fails as stated: the body of an event with a string of the two
    surrogates [U+D800 U+DC00] decodes to another event, whose string is the
    one character [U+10000]; and for a well-formed event with an integer of
    4301 digits among its arguments nothing is sent, and so there is no body
    to decode. *)
Lemma event_round_trip_counterexample :
  sent (append cpython (mock (Response 200 (jlit "{'status':'ok'}")))
          (world_with (JObj [(lit "this", JStr [0xd800; 0xdc00])]))).2
    = [Request POST (lit "http://localhost:8000/append")
         {[ lit "x-api-key" := lit "changeme";
            lit "Content-Type" := lit "application/json" ]}
         (Some (dumps (JObj [(lit "this", JStr [0xd800; 0xdc00])])))]
  ∧ loads cpython (dumps (JObj [(lit "this", JStr [0xd800; 0xdc00])]))
    = Ok (JObj [(lit "this", JStr [0x10000])])
  ∧ JObj [(lit "this", JStr [0x10000])] ≠ JObj [(lit "this", JStr [0xd800; 0xdc00])]
  ∧ well_formed (JObj [(lit "input", JObj [(lit "args", JArr [JInt 1; JInt (10 ^ 4300)])])])
  ∧ sent (append cpython (mock (Response 200 (jlit "{'status':'ok'}")))
            (world_with
               (JObj [(lit "input",
                        JObj [(lit "args", JArr [JInt 1; JInt (10 ^ 4300)])])]))).2
    = [].
Proof.
  split; [by vm_compute|]. split; [by vm_compute|]. split; [by vm_compute|].
  split.
  - remember (10 ^ 4300)%Z as z. apply well_formedb_sound. vm_compute. reflexivity.
  - rewrite append_run, run_unfold, long_integer_event_unwritable. done.
Qed.

(** ** The scan call *)



(** ** The query call *)

(** C2, as the script has it.  [query] takes no trace id: it hands the
    transport one request, a GET of [{base_url}/query?trace_id=py-demo-123e]
    with the header [x-api-key: <api_key>] and no body.  The trace id is part
    of the URL literal, and it is its own query-parameter encoding. *)
Theorem query_gets_the_literal_trace_id :
  ∀ py server w,
    sent (query py server w).2 =
      sent w
      ++ [Request GET
            (API_URL w ++ lit "/query?trace_id=" ++ percent_encode (lit "py-demo-123e"))
            {[ lit "x-api-key" := API_KEY w ]} None]
    ∧ percent_encode (lit "py-demo-123e") = lit "py-demo-123e".
Proof.
  intros py server w. split; [|by vm_compute].
  change (query py server w) with (run py server Query w).
  rewrite run_sent_prepared by done. reflexivity.
Qed.

(** C2 fails as stated: for the trace id [a&b] the request of [query] is
    neither for the encoded identifier ([a%26b]) nor for the identifier as
    it is; its URL is the literal's. *)
Lemma query_trace_id_counterexample :
  percent_encode (lit "a&b") = lit "a%26b"
  ∧ req_url <$> sent (query cpython (mock (Response 200 (jlit "[]"))) initial_world).2
    = [lit "http://localhost:8000/query?trace_id=py-demo-123e"]
  ∧ req_url <$> sent (query cpython (mock (Response 200 (jlit "[]"))) initial_world).2
    ≠ [lit "http://localhost:8000/query?trace_id=" ++ percent_encode (lit "a&b")]
  ∧ req_url <$> sent (query cpython (mock (Response 200 (jlit "[]"))) initial_world).2
    ≠ [lit "http://localhost:8000/query?trace_id=" ++ lit "a&b"].
Proof. by vm_compute. Qed.

(** ** Every call *)

(** C7.  Every request that an operation hands to the transport has the
    header [x-api-key] with the configured key for its value, an operation
    that gets to the transport hands it one request, and every request the
    whole script makes has the header. *)
Theorem x_api_key_on_every_request :
  (∀ py server op w,
     Forall (λ rq, req_headers rq !! lit "x-api-key" = Some (API_KEY w))
       (drop (length (sent w)) (sent (run py server op w).2))
     ∧ (prepare_error py op w = None →
        ∃ rq, sent (run py server op w).2 = sent w ++ [rq]
              ∧ req_headers rq !! lit "x-api-key" = Some (API_KEY w)))
  ∧ (∀ py server w,
       Forall (λ rq, req_headers rq !! lit "x-api-key" = Some (API_KEY w))
         (drop (length (sent w)) (sent (script py server w).2))).
Proof.
  assert (∀ py server op w,
            Forall (λ rq, req_headers rq !! lit "x-api-key" = Some (API_KEY w))
              (drop (length (sent w)) (sent (run py server op w).2))) as Hrun.
  { intros py server op w. rewrite run_sent, drop_app_length.
    destruct (prepare_error py op w); [done|].
    apply Forall_singleton, x_api_key_of. }
  split.
  - intros py server op w. split; [apply Hrun|].
    intros Hp. exists (request_of op w).
    split; [by apply run_sent_prepared | apply x_api_key_of].
  - intros py server w.
    assert (∀ op u, API_KEY u = API_KEY w → (length (sent w) ≤ length (sent u))%nat →
              Forall (λ rq, req_headers rq !! lit "x-api-key" = Some (API_KEY w))
                (drop (length (sent w)) (sent u)) →
              API_KEY (run py server op u).2 = API_KEY w
              ∧ (length (sent w) ≤ length (sent (run py server op u).2))%nat
              ∧ Forall (λ rq, req_headers rq !! lit "x-api-key" = Some (API_KEY w))
                  (drop (length (sent w)) (sent (run py server op u).2))) as Hstep.
    { intros op u Hk Hl Hf.
      pose proof (run_globals py server op u) as (_ & K & _).
      split; [congruence|]. rewrite run_sent.
      split; [rewrite length_app; lia|].
      rewrite drop_app_le by done. apply Forall_app. split; [done|].
      destruct (prepare_error py op u); [done|].
      apply Forall_singleton. rewrite <- Hk. apply x_api_key_of. }
    rewrite script_unfold.
    assert (Forall (λ rq, req_headers rq !! lit "x-api-key" = Some (API_KEY w))
              (drop (length (sent w)) (sent w))) as F0.
    { rewrite drop_all. done. }
    pose proof (Hstep Append w eq_refl (le_n _) F0) as (K1 & L1 & F1).
    destruct (run py server Append w) as [[v1|e] w1]; cbn [fst snd] in *; [|done].
    destruct (print_error py v1); [done|].
    pose proof (Hstep Scan (add_stdout (lit "Append result:", v1) w1) K1 L1 F1)
      as (K2 & L2 & F2).
    destruct (run py server Scan _) as [[v2|e] w2]; cbn [fst snd] in *; [|done].
    destruct (print_error py v2); [done|].
    pose proof (Hstep Query (add_stdout (lit "Scan result:", v2) w2) K2 L2 F2)
      as (K3 & L3 & F3).
    destruct (run py server Query _) as [[v3|e] w3]; cbn [fst snd] in *; [|done].
    by destruct (print_error py v3).
Qed.

Lemma x_api_key_on_every_request_witness :
  ∃ rq, sent (run cpython (mock (Response 200 (jlit "[]"))) Append initial_world).2
        = sent initial_world ++ [rq]
        ∧ req_headers rq !! lit "x-api-key" = Some (API_KEY initial_world).
Proof.
  apply (proj2 (proj1 x_api_key_on_every_request cpython (mock (Response 200 (jlit "[]")))
                  Append initial_world)).
  vm_compute. reflexivity.
Defined.

(** C5.  When the transport fails the call of an operation, the operation
    raises [TransportError] with that failure and nothing else; the request
    was handed to the transport once, no response was bound and nothing was
    printed. *)
Theorem transport_failure_surfaces_transport_error :
  ∀ py server op w f,
    prepare_error py op w = None →
    server (sent w) (request_of op w) = Failure f →
    (run py server op w).1 = Raise (TransportError f)
    ∧ sent (run py server op w).2 = sent w ++ [request_of op w]
    ∧ resp (run py server op w).2 = resp w
    ∧ stdout (run py server op w).2 = stdout w.
Proof. intros py server op w f Hp Hf. rewrite run_unfold, Hp, Hf. done. Qed.

Lemma transport_failure_surfaces_transport_error_witness :
  (run cpython (unreachable ConnectionRefused) Append initial_world).1
    = Raise (TransportError ConnectionRefused)
  ∧ sent (run cpython (unreachable ConnectionRefused) Append initial_world).2
    = sent initial_world ++ [request_of Append initial_world]
  ∧ resp (run cpython (unreachable ConnectionRefused) Append initial_world).2
    = resp initial_world
  ∧ stdout (run cpython (unreachable ConnectionRefused) Append initial_world).2
    = stdout initial_world.
Proof.
  apply (transport_failure_surfaces_transport_error cpython
           (unreachable ConnectionRefused) Append initial_world ConnectionRefused).
  - vm_compute. reflexivity.
  - reflexivity.
Defined.

(** C10, as the script has it.  Whatever the status code of the answer, an
    operation returns the value that [json.loads] reads from its body: an
    answer whose body is the text of a value that is within the limits of
    the interpreter gives that value, at any status, and so does the answer
    [{"error": "boom", "code": 500}] at status 500. *)
Theorem parsed_body_returned_whatever_the_status :
  (∀ py server op w status body v,
     prepare_error py op w = None →
     server (sent w) (request_of op w) = Answer (Response status body) →
     loads py body = Ok v →
     (run py server op w).1 = Ok v)
  ∧ (∀ py server op w status v,
       prepare_error py op w = None →
       reads py v →
       server (sent w) (request_of op w) = Answer (Response status (dumps v)) →
       (run py server op w).1 = Ok v)
  ∧ (run cpython (mock (Response 500 (jlit "{'error': 'boom', 'code': 500}"))) Scan
       initial_world).1
    = Ok (JObj [(lit "error", JStr (lit "boom")); (lit "code", JInt 500)]).
Proof.
  split; [|split].
  - intros py server op w status body v Hp Hr Hv.
    rewrite run_unfold, Hp, Hr. cbn [fst text]. by rewrite Hv.
  - intros py server op w status v Hp Hv Hr.
    rewrite run_unfold, Hp, Hr. cbn [fst text]. by apply loads_dumps.
  - by vm_compute.
Qed.

Lemma parsed_body_returned_whatever_the_status_witness :
  (run cpython (mock (Response 503 (dumps (JObj [(lit "retry", JBool true)])))) Query
     initial_world).1
  = Ok (JObj [(lit "retry", JBool true)]).
Proof.
  apply (proj1 (proj2 parsed_body_returned_whatever_the_status) cpython
           (mock (Response 503 (dumps (JObj [(lit "retry", JBool true)])))) Query
           initial_world 503%Z (JObj [(lit "retry", JBool true)])).
  - reflexivity.
  - apply readsb_sound. vm_compute. reflexivity.
  - reflexivity.
Defined.

(** C10 fails as stated: a body of 4301 digits and a body of 2000 nested
    lists are valid JSON, which an interpreter with other limits reads, and
    the operation raises [ValueError] on the one and [RecursionError] on the
    other. *)
Lemma valid_json_body_counterexample :
  loads (Interpreter 0 1000 1000 1000) (replicate 4301 49)
    = Ok (JInt (Z.of_N (int_of_digits (replicate 4301 49))))
  ∧ (run cpython (mock (Response 200 (replicate 4301 49))) Scan initial_world).1
    = Raise ValueError
  ∧ (∃ v, loads (Interpreter 4300 2000 2000 2000) (replicate 2000 91 ++ replicate 2000 93)
          = Ok v)
  ∧ (run cpython (mock (Response 200 (replicate 2000 91 ++ replicate 2000 93))) Scan
       initial_world).1
    = Raise RecursionError.
Proof.
  split.
  { apply (loads_digits _ 49 (replicate 4300 49)); [done | done | | done].
    apply Forall_replicate. reflexivity. }
  split; [by vm_compute|].
  split; [eexists; vm_compute; reflexivity|].
  by vm_compute.
Qed.

(** C3, as the script has it.  No operation ever raises [AuthError], and
    neither does the script.  On an answer with an authentication or
    authorization failure status an operation does what [json.loads] does on
    the body, returning its value or raising its exception, as on any other
    status: the outcome is the same for any two answers with the same
    body. *)
Theorem auth_failure_status_is_not_inspected :
  (∀ py server op w, (run py server op w).1 ≠ Raise AuthError)
  ∧ (∀ py server w, (script py server w).1 ≠ Raise AuthError)
  ∧ (∀ py server op w status body,
       auth_failure_status status = true →
       prepare_error py op w = None →
       server (sent w) (request_of op w) = Answer (Response status body) →
       (run py server op w).1 = loads py body)
  ∧ (∀ py server server' op w status status' body,
       server (sent w) (request_of op w) = Answer (Response status body) →
       server' (sent w) (request_of op w) = Answer (Response status' body) →
       (run py server op w).1 = (run py server' op w).1).
Proof.
  assert (∀ py server op w, (run py server op w).1 ≠ Raise AuthError) as Hrun.
  { intros py server op w H. apply run_raises in H.
    destruct H as [[f H] | [H | [H | [H | H]]]]; done. }
  assert (∀ py v, print_error py v ≠ Some AuthError) as Hprint.
  { intros py v H. apply print_error_kinds in H. destruct H as [H | [H | H]]; done. }
  split; [exact Hrun|]. split; [|split].
  - intros py server w. rewrite script_unfold.
    pose proof (Hrun py server Append w) as H1.
    destruct (run py server Append w) as [[v1|e] w1]; cbn [fst] in *; [|intros [= ->]; by apply H1].
    destruct (print_error py v1) eqn:P1; [intros [= ->]; by apply (Hprint py v1)|].
    pose proof (Hrun py server Scan (add_stdout (lit "Append result:", v1) w1)) as H2.
    destruct (run py server Scan _) as [[v2|e] w2]; cbn [fst] in *; [|intros [= ->]; by apply H2].
    destruct (print_error py v2) eqn:P2; [intros [= ->]; by apply (Hprint py v2)|].
    pose proof (Hrun py server Query (add_stdout (lit "Scan result:", v2) w2)) as H3.
    destruct (run py server Query _) as [[v3|e] w3]; cbn [fst] in *; [|intros [= ->]; by apply H3].
    destruct (print_error py v3) eqn:P3; [intros [= ->]; by apply (Hprint py v3)|done].
  - intros py server op w status body _ Hp Hr. by rewrite run_unfold, Hp, Hr.
  - intros py server server' op w status status' body Hr Hr'.
    rewrite !run_unfold, Hr, Hr'. by destruct (prepare_error py op w).
Qed.

Lemma auth_failure_status_is_not_inspected_witness :
  (run cpython (mock (Response 403 (lit "Forbidden"))) Query initial_world).1
  = loads cpython (lit "Forbidden").
Proof.
  apply (proj1 (proj2 (proj2 auth_failure_status_is_not_inspected)) cpython
           (mock (Response 403 (lit "Forbidden"))) Query initial_world 403%Z);
    reflexivity.
Defined.

(** C3 fails as stated: on a 401 answer with a JSON body [append] returns
    the body as its result, and on a 401 answer with a body that is not JSON
    it raises [DecodeError]; neither is [AuthError]. *)
Lemma auth_error_counterexample :
  auth_failure_status 401 = true
  ∧ (run cpython (mock (Response 401 (jlit "{'detail':'invalid api key'}"))) Append
       initial_world).1
    = Ok (JObj [(lit "detail", JStr (lit "invalid api key"))])
  ∧ (run cpython (mock (Response 401 (lit "Unauthorized"))) Append initial_world).1
    = Raise DecodeError.
Proof. by vm_compute. Qed.




(** C9.  No operation changes the event or the configuration, whatever the
    server does, and neither does the whole script; [scan] and [query] send
    no body; and the response left bound by an earlier call has no part in
    the next one: its result, its request and the output are the same
    whatever [resp] holds. *)
Theorem event_and_configuration_are_not_changed :
  (∀ py server op w,
     atomic (run py server op w).2 = atomic w
     ∧ API_URL (run py server op w).2 = API_URL w
     ∧ API_KEY (run py server op w).2 = API_KEY w)
  ∧ (∀ py server w, atomic (script py server w).2 = atomic w)
  ∧ (∀ w, req_body (request_of Scan w) = None ∧ req_body (request_of Query w) = None)
  ∧ (∀ py server op w o,
       let w0 := World (API_URL w) (API_KEY w) (atomic w) o (sent w) (stdout w) in
       (run py server op w0).1 = (run py server op w).1
       ∧ sent (run py server op w0).2 = sent (run py server op w).2
       ∧ stdout (run py server op w0).2 = stdout (run py server op w).2).
Proof.
  split; [|split; [|split]].
  - intros py server op w. by destruct (run_globals py server op w) as (? & ? & ?).
  - intros py server w. rewrite script_unfold.
    pose proof (run_globals py server Append w) as (_ & _ & A1).
    destruct (run py server Append w) as [[v1|e] w1]; cbn [fst snd] in *; [|done].
    destruct (print_error py v1); [done|].
    set (u1 := add_stdout _ w1).
    pose proof (run_globals py server Scan u1) as (_ & _ & A2).
    change (atomic u1) with (atomic w1) in A2.
    destruct (run py server Scan u1) as [[v2|e] w2]; cbn [fst snd] in *; [|congruence].
    destruct (print_error py v2); cbn [fst snd]; [congruence|].
    set (u2 := add_stdout _ w2).
    pose proof (run_globals py server Query u2) as (_ & _ & A3).
    change (atomic u2) with (atomic w2) in A3.
    destruct (run py server Query u2) as [[v3|e] w3]; cbn [fst snd] in *; [|congruence].
    destruct (print_error py v3); cbn [fst snd atomic add_stdout]; congruence.
  - done.
  - intros py server op w o w0. rewrite !run_unfold.
    change (request_of op w0) with (request_of op w).
    change (prepare_error py op w0) with (prepare_error py op w).
    change (sent w0) with (sent w).
    destruct (prepare_error py op w); [done|]. by destruct (server _ _).
Qed.

(** * The script as a whole *)

(** X1.  When each of the three calls comes back with a response whose body
    [json.loads] reads, and [print] can write the three values, the script
    makes its three calls in the order append, scan, query, prints the three
    values under their labels in that order, and ends without an exception,
    with [resp] bound to the last response. *)
Theorem script_prints_three_parsed_bodies :
  ∀ py server w r1 r2 r3 v1 v2 v3,
    prepare_error py Append w = None →
    server (sent w) (request_of Append w) = Answer r1 →
    loads py (text r1) = Ok v1 → print_error py v1 = None →
    server (sent w ++ [request_of Append w]) (request_of Scan w) = Answer r2 →
    loads py (text r2) = Ok v2 → print_error py v2 = None →
    server (sent w ++ [request_of Append w; request_of Scan w]) (request_of Query w)
      = Answer r3 →
    loads py (text r3) = Ok v3 → print_error py v3 = None →
    (script py server w).1 = Ok ()
    ∧ sent (script py server w).2 = sent w ++ script_requests w
    ∧ stdout (script py server w).2
      = stdout w ++ [(lit "Append result:", v1); (lit "Scan result:", v2);
                     (lit "Query result:", v3)]
    ∧ resp (script py server w).2 = Some r3.
Proof.
  intros py server w r1 r2 r3 v1 v2 v3 Hp H1 L1 P1 H2 L2 P2 H3 L3 P3.
  rewrite script_unfold.
  rewrite (run_answered py server Append w r1 Hp H1), L1, P1.
  set (u1 := add_stdout (lit "Append result:", v1)
               (set_resp r1 (add_sent (request_of Append w) w))).
  assert (sent u1 = sent w ++ [request_of Append w]) as S1 by reflexivity.
  assert (stdout u1 = stdout w ++ [(lit "Append result:", v1)]) as O1 by reflexivity.
  assert (∀ op, request_of op u1 = request_of op w) as R1
    by (intros op; by apply request_of_ext).
  rewrite <- (R1 Scan), <- S1 in H2.
  rewrite (run_answered py server Scan u1 r2 eq_refl H2), L2, P2.
  set (u2 := add_stdout (lit "Scan result:", v2)
               (set_resp r2 (add_sent (request_of Scan u1) u1))).
  assert (sent u2 = sent w ++ [request_of Append w; request_of Scan w]) as S2.
  { change (sent u2) with (sent u1 ++ [request_of Scan u1]).
    by rewrite S1, R1, <- app_assoc. }
  assert (stdout u2 = stdout w ++ [(lit "Append result:", v1); (lit "Scan result:", v2)])
    as O2.
  { change (stdout u2) with (stdout u1 ++ [(lit "Scan result:", v2)]).
    by rewrite O1, <- app_assoc. }
  assert (∀ op, request_of op u2 = request_of op w) as R2.
  { intros op. rewrite <- (R1 op). by apply request_of_ext. }
  rewrite <- (R2 Query), <- S2 in H3.
  rewrite (run_answered py server Query u2 r3 eq_refl H3), L3, P3.
  cbv beta iota. unfold fst, snd.
  split; [done|]. split; [|split; [|done]].
  - change (sent u2 ++ [request_of Query u2] = sent w ++ script_requests w).
    rewrite S2, R2, <- app_assoc. done.
  - change (stdout u2 ++ [(lit "Query result:", v3)]
            = stdout w ++ [(lit "Append result:", v1); (lit "Scan result:", v2);
                           (lit "Query result:", v3)]).
    by rewrite O2, <- app_assoc.
Qed.

Lemma script_prints_three_parsed_bodies_witness :
  (script cpython (mock (Response 200 (jlit "{'status':'ok'}"))) initial_world).1 = Ok ()
  ∧ sent (script cpython (mock (Response 200 (jlit "{'status':'ok'}"))) initial_world).2
    = sent initial_world ++ script_requests initial_world
  ∧ stdout (script cpython (mock (Response 200 (jlit "{'status':'ok'}"))) initial_world).2
    = stdout initial_world
      ++ [(lit "Append result:", JObj [(lit "status", JStr (lit "ok"))]);
          (lit "Scan result:", JObj [(lit "status", JStr (lit "ok"))]);
          (lit "Query result:", JObj [(lit "status", JStr (lit "ok"))])]
  ∧ resp (script cpython (mock (Response 200 (jlit "{'status':'ok'}"))) initial_world).2
    = Some (Response 200 (jlit "{'status':'ok'}")).
Proof.
  apply (script_prints_three_parsed_bodies cpython
           (mock (Response 200 (jlit "{'status':'ok'}"))) initial_world
           (Response 200 (jlit "{'status':'ok'}")) (Response 200 (jlit "{'status':'ok'}"))
           (Response 200 (jlit "{'status':'ok'}"))
           (JObj [(lit "status", JStr (lit "ok"))])
           (JObj [(lit "status", JStr (lit "ok"))])
           (JObj [(lit "status", JStr (lit "ok"))]));
    vm_compute; reflexivity.
Defined.

(** X2.  Whatever the server does, the script makes its calls in the order
    append, scan, query and stops at the first exception: the calls made are
    the first [n] of the three and the lines printed in full are under the
    first [m] labels, where [n = m = 3] when the script ends without an
    exception and otherwise [m < 3] and [n = m + 1], the call or the [print]
    after the last line having raised, or [n = m = 0], the event being one
    that cannot be written. *)
Theorem script_stops_at_the_first_exception :
  ∀ py server w,
    ∃ n m,
      sent (script py server w).2 = sent w ++ take n (script_requests w)
      ∧ (stdout (script py server w).2).*1 = (stdout w).*1 ++ take m script_labels
      ∧ match (script py server w).1 with
        | Ok _ => n = 3%nat ∧ m = 3%nat
        | Raise e =>
            (m < 3)%nat
            ∧ (n = S m ∨ (n = 0%nat ∧ m = 0%nat ∧ prepare_error py Append w = Some e))
        end.
Proof.
  intros py server w. rewrite script_unfold.
  pose proof (request_of_run py server Scan Append w) as R1.
  pose proof (request_of_run py server Query Append w) as R1'.
  pose proof (run_sent py server Append w) as S1.
  pose proof (run_stdout py server Append w) as O1.
  pose proof (run_unfold py server Append w) as U1.
  destruct (run py server Append w) as [[v1|e1] w1]; cbn [fst snd] in *.
  2: { destruct (prepare_error py Append w) as [e|] eqn:Ep.
       - exists 0%nat, 0%nat. injection U1 as -> _. cbn [fst snd take].
         rewrite S1, O1, !app_nil_r. split; [done|]. split; [done|].
         split; [lia|]. right. done.
       - exists 1%nat, 0%nat. cbn [fst snd take].
         rewrite S1, O1, !app_nil_r. split; [done|]. split; [done|].
         split; [lia|]. by left. }
  assert (prepare_error py Append w = None) as Ep.
  { destruct (prepare_error py Append w); [by injection U1|done]. }
  rewrite Ep in S1. clear U1.
  destruct (print_error py v1).
  { exists 1%nat, 0%nat. cbn [fst snd take]. rewrite S1, O1, !app_nil_r.
    split; [done|]. split; [done|]. split; [lia|]. by left. }
  pose proof (request_of_run py server Query Scan
                (add_stdout (lit "Append result:", v1) w1)) as R2.
  pose proof (run_sent_prepared py server Scan
                (add_stdout (lit "Append result:", v1) w1) eq_refl) as S2.
  pose proof (run_stdout py server Scan (add_stdout (lit "Append result:", v1) w1)) as O2.
  change (request_of ?op (add_stdout _ w1)) with (request_of op w1) in R2, S2.
  change (sent (add_stdout _ w1)) with (sent w1) in S2.
  change (stdout (add_stdout ?l w1)) with (stdout w1 ++ [l]) in O2.
  rewrite R1 in S2. rewrite R1' in R2. rewrite S1, <- app_assoc in S2. rewrite O1 in O2.
  destruct (run py server Scan _) as [[v2|e2] w2]; cbn [fst snd] in *.
  2: { exists 2%nat, 1%nat. cbn [fst snd take].
       rewrite S2, O2, fmap_app. split; [done|]. split; [done|].
       split; [lia|]. by left. }
  destruct (print_error py v2).
  { exists 2%nat, 1%nat. cbn [fst snd take].
    rewrite S2, O2, fmap_app. split; [done|]. split; [done|]. split; [lia|]. by left. }
  pose proof (run_sent_prepared py server Query
                (add_stdout (lit "Scan result:", v2) w2) eq_refl) as S3.
  pose proof (run_stdout py server Query (add_stdout (lit "Scan result:", v2) w2)) as O3.
  change (request_of ?op (add_stdout _ w2)) with (request_of op w2) in S3.
  change (sent (add_stdout _ w2)) with (sent w2) in S3.
  change (stdout (add_stdout ?l w2)) with (stdout w2 ++ [l]) in O3.
  rewrite R2, S2, <- app_assoc in S3. rewrite O2, <- app_assoc in O3.
  destruct (run py server Query _) as [[v3|e3] w3]; cbn [fst snd] in *.
  2: { exists 3%nat, 2%nat. cbn [fst snd take].
       rewrite S3, O3, fmap_app. split; [done|]. split; [done|].
       split; [lia|]. by left. }
  destruct (print_error py v3).
  { exists 3%nat, 2%nat. cbn [fst snd take].
    rewrite S3, O3, fmap_app. split; [done|]. split; [done|]. split; [lia|]. by left. }
  exists 3%nat, 3%nat. cbn [fst snd take add_stdout sent stdout].
  rewrite S3, O3, !fmap_app, <- !app_assoc. done.
Qed.

(** X3.  When the append call raises, the script ends there with that
    exception and in the state that the call left: nothing is printed,
    neither [/scan] nor [/query] is requested, and the one request of the
    script is that of the append call, if the event could be written. *)
Theorem failed_append_ends_the_script :
  ∀ py server w e,
    (append py server w).1 = Raise e →
    (script py server w).1 = Raise e
    ∧ (script py server w).2 = (append py server w).2
    ∧ sent (script py server w).2
      = sent w ++ (if prepare_error py Append w is None then [request_of Append w] else [])
    ∧ stdout (script py server w).2 = stdout w.
Proof.
  intros py server w e H. change (append py server w) with (run py server Append w) in *.
  rewrite script_unfold.
  pose proof (run_sent py server Append w) as S1.
  pose proof (run_stdout py server Append w) as O1.
  destruct (run py server Append w) as [[v1|e1] w1]; cbn [fst snd] in *; [done|].
  by injection H as ->.
Qed.

Lemma failed_append_ends_the_script_witness :
  (script cpython (unreachable ConnectionRefused) initial_world).1
    = Raise (TransportError ConnectionRefused)
  ∧ (script cpython (unreachable ConnectionRefused) initial_world).2
    = (append cpython (unreachable ConnectionRefused) initial_world).2
  ∧ sent (script cpython (unreachable ConnectionRefused) initial_world).2
    = sent initial_world ++ [request_of Append initial_world]
  ∧ stdout (script cpython (unreachable ConnectionRefused) initial_world).2
    = stdout initial_world.
Proof.
  apply (failed_append_ends_the_script cpython (unreachable ConnectionRefused)
           initial_world).
  vm_compute. reflexivity.
Defined.

(** X4.  When the scan call raises after an append that returned a value
    that was printed, the one line of the append result has been printed,
    the two requests have been made, and [/query] is never requested. *)
Theorem failed_scan_keeps_the_append_line :
  ∀ py server w v e,
    (append py server w).1 = Ok v →
    print_error py v = None →
    (scan py server (add_stdout (lit "Append result:", v) (append py server w).2)).1
      = Raise e →
    (script py server w).1 = Raise e
    ∧ sent (script py server w).2 = sent w ++ [request_of Append w; request_of Scan w]
    ∧ stdout (script py server w).2 = stdout w ++ [(lit "Append result:", v)].
Proof.
  intros py server w v e H1 Hp H2.
  change (append py server w) with (run py server Append w) in *.
  change (scan py server) with (run py server Scan) in *.
  rewrite script_unfold.
  pose proof (request_of_run py server Scan Append w) as R1.
  pose proof (run_sent py server Append w) as S1.
  pose proof (run_stdout py server Append w) as O1.
  pose proof (run_unfold py server Append w) as U1.
  destruct (run py server Append w) as [[v1|e1] w1]; cbn [fst snd] in *; [|done].
  injection H1 as ->. rewrite Hp.
  assert (prepare_error py Append w = None) as Ep.
  { destruct (prepare_error py Append w); [by injection U1|done]. }
  rewrite Ep in S1.
  pose proof (run_sent_prepared py server Scan
                (add_stdout (lit "Append result:", v) w1) eq_refl) as S2.
  pose proof (run_stdout py server Scan (add_stdout (lit "Append result:", v) w1)) as O2.
  destruct (run py server Scan _) as [[v2|e2] w2]; cbn [fst snd] in *; [done|].
  injection H2 as ->. rewrite S2, O2. cbn [add_stdout sent stdout].
  change (request_of Scan (add_stdout _ w1)) with (request_of Scan w1).
  by rewrite R1, S1, O1, <- app_assoc.
Qed.

Lemma failed_scan_keeps_the_append_line_witness :
  (script cpython (answers_once (Response 200 (lit "7")) TimedOut) initial_world).1
    = Raise (TransportError TimedOut)
  ∧ sent (script cpython (answers_once (Response 200 (lit "7")) TimedOut) initial_world).2
    = sent initial_world
      ++ [request_of Append initial_world; request_of Scan initial_world]
  ∧ stdout (script cpython (answers_once (Response 200 (lit "7")) TimedOut)
              initial_world).2
    = stdout initial_world ++ [(lit "Append result:", JInt 7)].
Proof.
  apply (failed_scan_keeps_the_append_line cpython
           (answers_once (Response 200 (lit "7")) TimedOut) initial_world (JInt 7)
           (TransportError TimedOut));
    vm_compute; reflexivity.
Defined.

(** X5.  [resp] is bound to the response before its body is decoded: after a
    call that came back with a response, [resp] holds that response, status
    and text, also when [resp.json()] raised, whatever it raised. *)
Theorem resp_is_bound_before_decoding :
  ∀ py server op w r,
    prepare_error py op w = None →
    server (sent w) (request_of op w) = Answer r →
    resp (run py server op w).2 = Some r
    ∧ (∀ e, loads py (text r) = Raise e → (run py server op w).1 = Raise e).
Proof.
  intros py server op w r Hp Hr. rewrite run_unfold, Hp, Hr. cbn [fst snd].
  split; [done|]. by intros e ->.
Qed.

Lemma resp_is_bound_before_decoding_witness :
  resp (run cpython (mock (Response 502 (lit "Bad Gateway"))) Scan initial_world).2
    = Some (Response 502 (lit "Bad Gateway"))
  ∧ (run cpython (mock (Response 502 (lit "Bad Gateway"))) Scan initial_world).1
    = Raise DecodeError.
Proof.
  destruct (resp_is_bound_before_decoding cpython
              (mock (Response 502 (lit "Bad Gateway"))) Scan initial_world
              (Response 502 (lit "Bad Gateway")) eq_refl eq_refl) as [Hresp Hraise].
  split; [exact Hresp|]. apply Hraise. vm_compute. reflexivity.
Defined.

(** X6.  The calls keep no state of their own: an operation makes the same
    request after any sequence of operations as before it, whatever the
    server answered in between, and the requests of the sequence are those
    of its operations in the starting world, but for an append whose event
    cannot be written. *)
Theorem earlier_calls_do_not_change_a_request :
  ∀ py server ops op w,
    request_of op (foldl (λ w' op', (run py server op' w').2) w ops) = request_of op w
    ∧ prepare_error py op (foldl (λ w' op', (run py server op' w').2) w ops)
      = prepare_error py op w
    ∧ sent (foldl (λ w' op', (run py server op' w').2) w ops)
      = sent w ++ flat_map (λ op', if prepare_error py op' w is None
                                   then [request_of op' w] else []) ops.
Proof.
  intros py server ops op w. revert op.
  induction ops as [|o ops IH] using rev_ind; intros op.
  - cbn. by rewrite app_nil_r.
  - rewrite foldl_app, flat_map_app. cbn [foldl flat_map].
    rewrite request_of_run, prepare_error_run, run_sent.
    rewrite (proj1 (IH op)), (proj1 (proj2 (IH op))), (proj1 (IH o)),
      (proj1 (proj2 (IH o))), (proj2 (proj2 (IH o))).
    by rewrite app_nil_r, <- app_assoc.
Qed.

(** * Properties of the bodies that go out and come in *)

(** X7.  A response with an empty body, or with white space only, makes the
    operation raise [DecodeError], whatever its status. *)
Theorem blank_body_raises_decode_error :
  ∀ py server op w status body,
    prepare_error py op w = None →
    server (sent w) (request_of op w) = Answer (Response status body) →
    Forall (λ c, is_ws c = true) body →
    (run py server op w).1 = Raise DecodeError.
Proof.
  intros py server op w status body Hp Hr Hb.
  rewrite run_unfold, Hp, Hr. cbn [text fst]. by rewrite loads_blank.
Qed.

Lemma blank_body_raises_decode_error_witness :
  (run cpython (mock (Response 204 [])) Append initial_world).1 = Raise DecodeError.
Proof.
  apply (blank_body_raises_decode_error cpython (mock (Response 204 [])) Append
           initial_world 204%Z []).
  - vm_compute. reflexivity.
  - reflexivity.
  - apply Forall_nil_2.
Defined.

(** X8.  For a well-formed event, every body that [append] sends is ASCII:
    every character of it is in [' '..'~'], whatever characters the strings
    of the event hold; and the event is sent with such a body when it is
    not [None] and can be written. *)
Theorem append_body_is_ascii :
  ∀ py server w,
    well_formed (atomic w) →
    Forall (λ rq, ∀ body, req_body rq = Some body → Forall (λ c, 32 ≤ c ≤ 126) body)
      (drop (length (sent w)) (sent (append py server w).2))
    ∧ (atomic w ≠ JNull → prepare_error py Append w = None →
       ∃ rq body,
         sent (append py server w).2 = sent w ++ [rq]
         ∧ req_body rq = Some body
         ∧ Forall (λ c, 32 ≤ c ≤ 126) body).
Proof.
  intros py server w Hwf. change (append py server w) with (run py server Append w).
  assert (∀ body, req_body (request_of Append w) = Some body →
                  Forall (λ c, 32 ≤ c ≤ 126) body) as Hb.
  { unfold request_of, req_body. revert Hwf. generalize (atomic w) as v.
    intros v Hwf body E.
    destruct v; try done; injection E as <-; exact (dumps_printable _ Hwf). }
  split.
  - rewrite run_sent, drop_app_length.
    destruct (prepare_error py Append w); [done|]. by apply Forall_singleton.
  - intros Hn Hp. exists (request_of Append w), (dumps (atomic w)).
    split; [by apply run_sent_prepared|].
    assert (req_body (request_of Append w) = Some (dumps (atomic w))) as E.
    { unfold request_of, req_body. by apply body_of_not_null. }
    split; [done | by apply Hb].
Qed.

Lemma append_body_is_ascii_witness :
  ∃ rq body,
    sent (append cpython echo
            (world_with (JObj [(lit "this", JStr [233; 10; 0x1f600])]))).2
      = sent (world_with (JObj [(lit "this", JStr [233; 10; 0x1f600])])) ++ [rq]
    ∧ req_body rq = Some body
    ∧ Forall (λ c, 32 ≤ c ≤ 126) body.
Proof.
  refine (proj2 (append_body_is_ascii cpython echo
                   (world_with (JObj [(lit "this", JStr [233; 10; 0x1f600])])) _) _ _).
  - apply well_formedb_sound. vm_compute. reflexivity.
  - discriminate.
  - vm_compute. reflexivity.
Defined.

(** X9.  White space around the JSON text of a body is of no account: a
    response whose body is the text of a value that is within the limits of
    the interpreter, between runs of spaces, tabs and line ends, makes the
    operation return that value. *)
Theorem padded_body_is_decoded :
  ∀ py server op w status v ws1 ws2,
    prepare_error py op w = None →
    reads py v →
    Forall (λ c, is_ws c = true) ws1 →
    Forall (λ c, is_ws c = true) ws2 →
    server (sent w) (request_of op w) = Answer (Response status (ws1 ++ dumps v ++ ws2)) →
    (run py server op w).1 = Ok v.
Proof.
  intros py server op w status v ws1 ws2 Hp Hv H1 H2 Hr.
  rewrite run_unfold, Hp, Hr. cbn [text fst]. by rewrite loads_padded.
Qed.

Lemma padded_body_is_decoded_witness :
  (run cpython
     (mock (Response 200 (lit " " ++ dumps (JArr [JInt 1; JNull]) ++ [13; 10])))
     Query initial_world).1
    = Ok (JArr [JInt 1; JNull]).
Proof.
  apply (padded_body_is_decoded cpython
           (mock (Response 200 (lit " " ++ dumps (JArr [JInt 1; JNull]) ++ [13; 10])))
           Query initial_world 200%Z (JArr [JInt 1; JNull]) (lit " ") [13; 10]).
  - reflexivity.
  - apply readsb_sound. vm_compute. reflexivity.
  - repeat constructor.
  - repeat constructor.
  - reflexivity.
Defined.

(** X10.  The body of the append request determines the event: two
    well-formed events with the same body are the same event. *)
Theorem append_body_determines_the_event :
  ∀ w1 w2,
    well_formed (atomic w1) → well_formed (atomic w2) →
    req_body (request_of Append w1) = req_body (request_of Append w2) →
    atomic w1 = atomic w2.
Proof.
  intros w1 w2 H1 H2 E. unfold request_of, req_body in E.
  set (py := Interpreter 0 0 (Nat.max (nesting (atomic w1)) (nesting (atomic w2))) 0).
  assert (reads py (atomic w1)) as R1.
  { split; [done|]. split; [cbn; lia | done]. }
  assert (reads py (atomic w2)) as R2.
  { split; [done|]. split; [cbn; lia | done]. }
  apply loads_dumps in R1, R2.
  assert (∀ v, body_of v = None → v = JNull) as Hnone by (by intros []).
  assert (∀ v body, body_of v = Some body → body = dumps v) as Hsome
    by (intros [] body; by intros [= <-]).
  destruct (body_of (atomic w1)) as [body|] eqn:B1.
  - symmetry in E. apply Hsome in B1, E. rewrite <- B1 in R1. rewrite <- E in R2.
    congruence.
  - symmetry in E. apply Hnone in B1, E. congruence.
Qed.

Lemma append_body_determines_the_event_witness :
  atomic initial_world
  = atomic (World (lit "http://example.org") (lit "k") atomic_literal None [] []).
Proof.
  apply (append_body_determines_the_event initial_world
           (World (lit "http://example.org") (lit "k") atomic_literal None [] [])).
  - apply well_formedb_sound. vm_compute. reflexivity.
  - apply well_formedb_sound. vm_compute. reflexivity.
  - reflexivity.
Defined.

(** X11.  Through a server that answers with the body it was sent, [append]
    returns the event itself, when the event is not [None] and is within
    the limits of the interpreter, and [scan] and [query], which send no
    body, raise [DecodeError]. *)
Theorem echoed_event_comes_back :
  ∀ py w,
    reads py (atomic w) → atomic w ≠ JNull → prepare_error py Append w = None →
    (append py echo w).1 = Ok (atomic w)
    ∧ (scan py echo w).1 = Raise DecodeError
    ∧ (query py echo w).1 = Raise DecodeError.
Proof.
  intros py w Hv Hn Hp.
  change (append py echo w) with (run py echo Append w).
  change (scan py echo w) with (run py echo Scan w).
  change (query py echo w) with (run py echo Query w).
  rewrite !run_unfold, Hp.
  change (prepare_error py Scan w) with (@None error).
  change (prepare_error py Query w) with (@None error).
  change (echo (sent w) (request_of Scan w)) with (Answer (Response 200 [])).
  change (echo (sent w) (request_of Query w)) with (Answer (Response 200 [])).
  assert (echo (sent w) (request_of Append w) = Answer (Response 200 (dumps (atomic w))))
    as ->.
  { unfold echo, request_of, req_body. by rewrite body_of_not_null. }
  cbn [fst text]. rewrite loads_dumps by done. done.
Qed.

Lemma echoed_event_comes_back_witness :
  (append cpython echo initial_world).1 = Ok (atomic initial_world)
  ∧ (scan cpython echo initial_world).1 = Raise DecodeError
  ∧ (query cpython echo initial_world).1 = Raise DecodeError.
Proof.
  apply (echoed_event_comes_back cpython initial_world).
  - apply readsb_sound. vm_compute. reflexivity.
  - discriminate.
  - vm_compute. reflexivity.
Defined.

(** X12.  A body that opens more lists than the recursion limit leaves to
    the decoder makes the operation raise [RecursionError], not
    [DecodeError], whatever follows the brackets: so it is for a body that
    is JSON and for one that is not. *)
Theorem deep_body_raises_recursion_error :
  ∀ py server op w status n rest,
    prepare_error py op w = None →
    (decoder_depth py < n)%nat →
    server (sent w) (request_of op w) = Answer (Response status (replicate n 91 ++ rest)) →
    (run py server op w).1 = Raise RecursionError
    ∧ resp (run py server op w).2 = Some (Response status (replicate n 91 ++ rest))
    ∧ stdout (run py server op w).2 = stdout w.
Proof.
  intros py server op w status n rest Hp Hn Hr.
  rewrite run_unfold, Hp, Hr. cbn [text fst snd]. by rewrite loads_too_deep.
Qed.

Lemma deep_body_raises_recursion_error_witness :
  (run cpython (mock (Response 200 (replicate 1001 91 ++ lit "oops"))) Scan
     initial_world).1
    = Raise RecursionError
  ∧ resp (run cpython (mock (Response 200 (replicate 1001 91 ++ lit "oops"))) Scan
            initial_world).2
    = Some (Response 200 (replicate 1001 91 ++ lit "oops"))
  ∧ stdout (run cpython (mock (Response 200 (replicate 1001 91 ++ lit "oops"))) Scan
              initial_world).2
    = stdout initial_world.
Proof.
  apply (deep_body_raises_recursion_error cpython
           (mock (Response 200 (replicate 1001 91 ++ lit "oops"))) Scan initial_world
           200%Z 1001%nat (lit "oops")).
  - reflexivity.
  - vm_compute. lia.
  - reflexivity.
Defined.

(** X13.  White space before the body is of no account, whatever the body:
    [resp.json()] returns or raises the same with and without it. *)
Theorem leading_white_space_is_skipped :
  ∀ py status ws body w,
    Forall (λ c, is_ws c = true) ws →
    resp_json py (Response status (ws ++ body)) w = resp_json py (Response status body) w.
Proof.
  intros py status ws body w Hws. unfold resp_json. cbn [text].
  by rewrite loads_skip_ws.
Qed.

Lemma leading_white_space_is_skipped_witness :
  resp_json cpython (Response 200 ([10; 32] ++ jlit "{'n': [1, {}]}")) initial_world
  = resp_json cpython (Response 200 (jlit "{'n': [1, {}]}")) initial_world.
Proof.
  apply (leading_white_space_is_skipped cpython 200%Z [10; 32] (jlit "{'n': [1, {}]}")
           initial_world).
  repeat constructor.
Defined.

(** X14.  A response whose body starts, after white space, with a character
    that no JSON value starts with makes the operation raise [DecodeError],
    whatever follows and whatever the status: so does every HTML or XML
    error page, which starts with [<]. *)
Theorem markup_body_raises_decode_error :
  ∀ py server op w r c rest,
    prepare_error py op w = None →
    server (sent w) (request_of op w) = Answer r →
    skip_ws (text r) = c :: rest →
    starts_json c = false →
    (run py server op w).1 = Raise DecodeError
    ∧ starts_json 60 = false.
Proof.
  intros py server op w r c rest Hp Hr Hs Hc. split; [|done].
  rewrite run_unfold, Hp, Hr. cbn [fst]. by rewrite (loads_not_starts_json _ _ c rest).
Qed.

Lemma markup_body_raises_decode_error_witness :
  (run cpython (mock (Response 502 (lit " <html><body>Bad Gateway</body></html>"))) Query
     initial_world).1 = Raise DecodeError
  ∧ starts_json 60 = false.
Proof.
  apply (markup_body_raises_decode_error cpython
           (mock (Response 502 (lit " <html><body>Bad Gateway</body></html>"))) Query
           initial_world (Response 502 (lit " <html><body>Bad Gateway</body></html>"))
           60 (lit "html><body>Bad Gateway</body></html>"));
    reflexivity.
Defined.

(** X15.  The value an operation returns is a Python value: none of its
    mappings, at any depth, holds a key twice, whatever keys the body
    repeats. *)
Theorem returned_value_has_unique_keys :
  ∀ py server op w v,
    (run py server op w).1 = Ok v →
    keys_unique v.
Proof.
  intros py server op w v H. rewrite run_unfold in H.
  destruct (prepare_error py op w); [done|].
  destruct (server (sent w) (request_of op w)) as [r|f]; [|done]. cbn [fst] in H.
  by eapply loads_keys_unique.
Qed.

Lemma returned_value_has_unique_keys_witness :
  keys_unique (JObj [(lit "a", JInt 2); (lit "b", JObj [(lit "c", JNull)])]).
Proof.
  apply (returned_value_has_unique_keys cpython
           (mock (Response 200 (jlit "{'a': 1, 'b': {'c': 0, 'c': null}, 'a': 2}")))
           Scan initial_world).
  vm_compute. reflexivity.
Defined.

(** X16.  A body that is an integer of more digits than the interpreter
    converts makes the operation raise [ValueError], although the body is
    JSON; with the default limit, so does a body of 4301 digits. *)
Theorem long_integer_body_raises_value_error :
  ∀ py server op w status d ds,
    prepare_error py op w = None →
    is_digit d = true → d ≠ 48 → Forall (λ c, is_digit c = true) ds →
    exceeds_int_limit py (S (length ds)) = true →
    server (sent w) (request_of op w) = Answer (Response status (d :: ds)) →
    (run py server op w).1 = Raise ValueError.
Proof.
  intros py server op w status d ds Hp Hd Hnz Hds Hlim Hr.
  rewrite run_unfold, Hp, Hr. cbn [text fst]. by apply loads_too_many_digits.
Qed.

Lemma long_integer_body_raises_value_error_witness :
  (run cpython (mock (Response 200 (57 :: replicate 4300 48))) Query initial_world).1
  = Raise ValueError.
Proof.
  apply (long_integer_body_raises_value_error cpython
           (mock (Response 200 (57 :: replicate 4300 48))) Query initial_world 200%Z
           57 (replicate 4300 48)).
  - reflexivity.
  - reflexivity.
  - discriminate.
  - apply Forall_replicate. reflexivity.
  - vm_compute. reflexivity.
  - reflexivity.
Defined.

(** X17.  An event that cannot be written ends the script before any call:
    when [json.dumps] raises on the event, [append] raises that exception,
    which is [InvalidJSONError] for a float that is not finite or an integer
    of too many digits and [RecursionError] for an event nested too deep,
    and nothing is sent, nothing bound and nothing printed. *)
Theorem unwritable_event_sends_nothing :
  ∀ py server w e,
    prepare_error py Append w = Some e →
    (e = InvalidJSONError ∨ e = RecursionError)
    ∧ run py server Append w = (Raise e, w)
    ∧ script py server w = (Raise e, w).
Proof.
  intros py server w e Hp. split; [by apply encode_error_kinds in Hp|].
  assert (run py server Append w = (Raise e, w)) as H by by rewrite run_unfold, Hp.
  split; [done|]. by rewrite script_unfold, H.
Qed.

Lemma unwritable_event_sends_nothing_witness :
  (InvalidJSONError = InvalidJSONError ∨ InvalidJSONError = RecursionError)
  ∧ run cpython echo Append (world_with (JArr [JFloat (lit "Infinity")]))
    = (Raise InvalidJSONError, world_with (JArr [JFloat (lit "Infinity")]))
  ∧ script cpython echo (world_with (JArr [JFloat (lit "Infinity")]))
    = (Raise InvalidJSONError, world_with (JArr [JFloat (lit "Infinity")])).
Proof.
  apply (unwritable_event_sends_nothing cpython echo
           (world_with (JArr [JFloat (lit "Infinity")])) InvalidJSONError).
  vm_compute. reflexivity.
Defined.

(** X18.  A value that [print] cannot write ends the script after the call
    that returned it: when the body of the append response is a string with
    a surrogate, [print] raises [UnicodeEncodeError] without completing its
    line (its label alone may have been written), and [/scan] is not
    requested. *)
Theorem unprintable_result_ends_the_script :
  ∀ py server w s,
    (append py server w).1 = Ok (JStr s) →
    has_surrogate s = true →
    (script py server w).1 = Raise UnicodeEncodeError
    ∧ sent (script py server w).2 = sent w ++ [request_of Append w]
    ∧ stdout (script py server w).2 = stdout w.
Proof.
  intros py server w s H Hs. change (append py server w) with (run py server Append w) in *.
  rewrite script_unfold.
  pose proof (run_sent py server Append w) as S1.
  pose proof (run_stdout py server Append w) as O1.
  pose proof (run_unfold py server Append w) as U1.
  destruct (run py server Append w) as [[v1|e1] w1]; cbn [fst snd] in *; [|done].
  injection H as ->. cbn [print_error]. rewrite Hs. cbn [fst snd].
  destruct (prepare_error py Append w); [by injection U1|done].
Qed.

Lemma unprintable_result_ends_the_script_witness :
  (script cpython (mock (Response 200 (dumps (JStr [0xd83d])))) initial_world).1
    = Raise UnicodeEncodeError
  ∧ sent (script cpython (mock (Response 200 (dumps (JStr [0xd83d])))) initial_world).2
    = sent initial_world ++ [request_of Append initial_world]
  ∧ stdout (script cpython (mock (Response 200 (dumps (JStr [0xd83d])))) initial_world).2
    = stdout initial_world.
Proof.
  apply (unprintable_result_ends_the_script cpython
           (mock (Response 200 (dumps (JStr [0xd83d])))) initial_world [0xd83d]);
    vm_compute; reflexivity.
Defined.

(** X19.  An event that is [None] is posted without a body: the request of
    [append] is the POST with its two headers and no body, and the call
    goes on as any other. *)
Theorem none_event_is_posted_without_body :
  ∀ py server w,
    atomic w = JNull →
    prepare_error py Append w = None
    ∧ req_body (request_of Append w) = None
    ∧ req_method (request_of Append w) = POST
    ∧ sent (append py server w).2 = sent w ++ [request_of Append w].
Proof.
  intros py server w Ha.
  assert (prepare_error py Append w = None) as Hp.
  { unfold prepare_error. rewrite Ha. by destruct (encoder_depth py). }
  split; [done|]. split; [unfold request_of, req_body; by rewrite Ha|].
  split; [done|]. change (append py server w) with (run py server Append w).
  by apply run_sent_prepared.
Qed.

Lemma none_event_is_posted_without_body_witness :
  prepare_error cpython Append (world_with JNull) = None
  ∧ req_body (request_of Append (world_with JNull)) = None
  ∧ req_method (request_of Append (world_with JNull)) = POST
  ∧ sent (append cpython echo (world_with JNull)).2
    = sent (world_with JNull) ++ [request_of Append (world_with JNull)].
Proof.
  apply (none_event_is_posted_without_body cpython echo (world_with JNull)).
  reflexivity.
Defined.
